(** * vs.logger: the event pipeline of [Logger] and its relay bridge

    A shallow embedding of [src/lib/logger.cpp], of the other revision of the
    same file kept as [src/unnamed/part_001], and of
    [src/include/vs-logger/logger.hpp].

    - [uint64_t] and [size_t] values are [N]; the one place where the program
      does arithmetic on them, [++seq_id], has its wrap-around written out.
    - [std::string] is [string]: a sequence of 8-bit [ascii] values, so a
      message may hold any byte, the zero byte included.
    - What [log] reads from its surroundings (the steady clock, whether the
      stream write succeeds, what [sendto] returns) is passed in as a
      [call_env]; what it does to its surroundings (lines on [std::cerr],
      datagrams handed to [sendto]) is threaded through a [World].
    - [std::lock_guard<std::mutex> lock(writeMutex)] is the first statement of
      [Logger::log] and is released when the function returns, so a call is
      one atomic step and a concurrent execution is an interleaving of the
      calls of its threads. *)

From Stdlib Require Import NArith ZArith List Sorted String Ascii Bool Lia.
From Stdlib Require Import DecimalString DecimalN DecimalFacts.
Import ListNotations.

Local Open Scope string_scope.

(* ------------------------------------------------------------------ *)
(** ** Bytes and text *)

Definition uint64_modulus : N := Eval cbv in (2 ^ 64)%N.

(** The characters the source names through escape sequences. *)
Definition ch_nul   : ascii := Eval cbv in ascii_of_nat 0.
Definition ch_soh   : ascii := Eval cbv in ascii_of_nat 1.   (* a control character *)
Definition ch_bs    : ascii := Eval cbv in ascii_of_nat 8.   (* '\b' *)
Definition ch_tab   : ascii := Eval cbv in ascii_of_nat 9.   (* '\t' *)
Definition ch_nl    : ascii := Eval cbv in ascii_of_nat 10.  (* '\n' *)
Definition ch_ff    : ascii := Eval cbv in ascii_of_nat 12.  (* '\f' *)
Definition ch_cr    : ascii := Eval cbv in ascii_of_nat 13.  (* '\r' *)
Definition ch_quote : ascii := Eval cbv in ascii_of_nat 34.  (* the double quote *)
Definition ch_slash : ascii := Eval cbv in ascii_of_nat 92.  (* the backslash *)

(** A one-character string, and a string between double quotes. *)
Definition str1 (c : ascii) : string := String c EmptyString.
Definition quoted (s : string) : string := String ch_quote (s ++ str1 ch_quote).

(** Decimal rendering of an unsigned integer, as [operator<<] and
    [std::format("{}")] print a [uint64_t]: no sign, no leading zero. *)
Definition dec (n : N) : string := NilZero.string_of_uint (N.to_uint n).

(* ------------------------------------------------------------------ *)
(** ** [logger.hpp]: the entry model *)

Inductive type_t := OK | INFO | WARNING | ERROR | PANIC.
Inductive severity_t := NONE | LOW | MID | HIGH.

Record log_entry_t := mk_entry {
  e_type : type_t;
  e_sev : severity_t;
  e_timestamp : N;
  e_activity_uuid : N;
  e_seq_id : N;
  e_parent_uuid : N;
  e_offset : N;
  e_length : N
}.

(** [std::string_view to_string(Logger::type_t)]. Every enumerator has a case,
    so the trailing [return "UNKNOWN"] is not reached from a value of the
    enumeration. *)
Definition to_string_type (t : type_t) : string :=
  match t with
  | OK => "OK"
  | INFO => "INFO"
  | WARNING => "WARNING"
  | ERROR => "ERROR"
  | PANIC => "PANIC"
  end.

(** [std::string_view to_string(Logger::severity_t)]. *)
Definition to_string_sev (s : severity_t) : string :=
  match s with
  | NONE => "NONE"
  | LOW => "LOW"
  | MID => "MID"
  | HIGH => "HIGH"
  end.

(* ------------------------------------------------------------------ *)
(** ** The logger's state and its surroundings *)

(** [std::ofstream logFileStream], opened with [std::ios::app]. The exception
    mask of the stream is never changed from its default, so a failed write
    sets the error state and returns. [of_file] is the content of the file the
    stream appends to; every insertion is followed by [flush()]. *)
Record ofstream := mk_ofstream {
  of_is_open : bool;
  of_bad : bool;
  of_file : string
}.

Record Logger := mk_Logger {
  logFilePath : option string;
  udsPath : option string;
  logFileStream : ofstream;
  udsSock : Z;
  seq_id : N
}.

(** One call of [sendto]: the bytes passed and the value returned. *)
Record sendto_call := mk_sendto {
  st_payload : string;
  st_ret : Z
}.

(** What a logger leaves outside itself. [w_entries] is a ghost history of the
    [log_entry_t] values that [log] built, oldest first. *)
Record World := mk_World {
  w_cerr : list string;
  w_sendto : list sendto_call;
  w_entries : list log_entry_t
}.

Definition empty_world : World := mk_World [] [] [].

(** What one call of [log] reads from outside. *)
Record call_env := mk_env {
  env_now : N;          (* steady_clock::now() in microseconds *)
  env_write_ok : bool;  (* does the operating system accept the write *)
  env_sendto : Z;       (* result of sendto on a valid descriptor *)
  env_strerror : string (* strerror(errno) after a failed sendto *)
}.

Definition put_cerr (line : string) (w : World) : World :=
  mk_World (w_cerr w ++ [line]) (w_sendto w) (w_entries w).

(** [std::quoted], through which [operator<<] prints a
    [std::filesystem::path]: the text between double quotes, a backslash before
    every double quote and backslash in it. *)
Fixpoint quoted_body (s : string) : string :=
  match s with
  | EmptyString => EmptyString
  | String c s' =>
      if (Ascii.eqb c ch_quote || Ascii.eqb c ch_slash)%bool
      then String ch_slash (String c (quoted_body s'))
      else String c (quoted_body s')
  end.

Definition std_quoted (s : string) : string := quoted (quoted_body s).

(** What the constructor reads from outside: whether the file can be opened,
    what it holds then, the result of [socket(AF_UNIX, SOCK_DGRAM, 0)] and the
    text of [strerror(errno)] when that fails. *)
Record ctor_env := mk_ctor_env {
  open_ok : bool;
  existing : string;
  socket_ret : Z;
  socket_strerror : string
}.

(** [Logger::Logger(logFilePath, udsPath)]. Member initialisers give
    [udsSock = -1] and [seq_id = 0]. *)
Definition Logger_new (lfp uds : option string) (cenv : ctor_env) (w : World)
    : Logger * World :=
  let closed := mk_ofstream false false EmptyString in
  let '(stream, w1) :=
    match lfp with
    | Some path =>
        if open_ok cenv then (mk_ofstream true false (existing cenv), w)
        else (mk_ofstream false true EmptyString,
              put_cerr ("Failed to open log file: " ++ std_quoted path) w)
    | None => (closed, w)
    end in
  match uds with
  | Some _ =>
      if (socket_ret cenv <? 0)%Z
      then (mk_Logger lfp uds stream (socket_ret cenv) 0,
            put_cerr ("notifySubscribers: Failed to create socket: "
                      ++ socket_strerror cenv) w1)
      else (mk_Logger lfp uds stream (socket_ret cenv) 0, w1)
  | None => (mk_Logger lfp uds stream (-1) 0, w1)
  end.

(** [uint64_t] pre-increment. *)
Definition incr64 (n : N) : N := ((n + 1) mod uint64_modulus)%N.

(** Insertion into the stream followed by [flush()]: on a stream whose error
    state is set nothing is written; a write the system refuses sets it. *)
Definition stream_insert (text : string) (write_ok : bool) (s : ofstream)
    : ofstream :=
  if of_bad s then s
  else if write_ok then mk_ofstream (of_is_open s) false (of_file s ++ text)
  else mk_ofstream (of_is_open s) true (of_file s).

(** The line [writeToFS] formats:
    [std::format("[{}], {{{}}}, Activity: {} Seq: {} Parent: {} -- {}\n", ...)]. *)
Definition fs_line (entry : log_entry_t) (message : string) : string :=
  "[" ++ to_string_type (e_type entry) ++ "], {" ++
  to_string_sev (e_sev entry) ++ "}, Activity: " ++
  dec (e_activity_uuid entry) ++ " Seq: " ++
  dec (e_seq_id entry) ++ " Parent: " ++
  dec (e_parent_uuid entry) ++ " -- " ++
  message ++ str1 ch_nl.

(** [Logger::writeToFS]; the same in both revisions. *)
Definition writeToFS (env : call_env) (entry : log_entry_t) (message : string)
    (lw : Logger * World) : Logger * World :=
  let '(lg, w) := lw in
  if negb (of_is_open (logFileStream lg)) then
    (lg, put_cerr "Log file not open!" w)
  else
    (mk_Logger (logFilePath lg) (udsPath lg)
       (stream_insert (fs_line entry message) (env_write_ok env)
          (logFileStream lg))
       (udsSock lg) (seq_id lg),
     w).

(** [sendto] on the logger's descriptor: a negative descriptor (the value the
    member keeps when [socket] failed or was never called) is refused. *)
Definition sendto (sock : Z) (env : call_env) : Z :=
  if (sock <? 0)%Z then (-1)%Z else env_sendto env.

Section Sequencer.

(** The JSON text [writeToWS] builds from an entry and a message, the one
    place where the two revisions of [logger.cpp] differ. *)
Variable payload_of : log_entry_t -> string -> string.

(** [Logger::writeToWS]: build the payload, hand it to [sendto], report a
    negative result on [std::cerr]. *)
Definition writeToWS_with (env : call_env) (entry : log_entry_t)
    (message : string) (lw : Logger * World) : Logger * World :=
  let '(lg, w) := lw in
  let payload := payload_of entry message in
  let ret := sendto (udsSock lg) env in
  let w1 := mk_World (w_cerr w) (w_sendto w ++ [mk_sendto payload ret])
              (w_entries w) in
  if (ret <? 0)%Z then
    (lg, put_cerr ("notifySubscribers: Failed to send payload: "
                   ++ env_strerror env) w1)
  else (lg, w1).

(** [Logger::log], run under [writeMutex] from its first statement to its
    return. *)
Definition log_with (env : call_env) (type : type_t) (sev : severity_t)
    (message : string) (activity_uuid parent_uuid : N)
    (lw : Logger * World) : Logger * World :=
  let '(lg, w) := lw in
  let seq := incr64 (seq_id lg) in
  let entry :=
    mk_entry type sev (env_now env) activity_uuid seq parent_uuid
      0 (N.of_nat (String.length message)) in
  let lg1 := mk_Logger (logFilePath lg) (udsPath lg) (logFileStream lg)
               (udsSock lg) seq in
  let w1 := mk_World (w_cerr w) (w_sendto w) (w_entries w ++ [entry]) in
  let lw2 :=
    match logFilePath lg1 with
    | Some _ => writeToFS env entry message (lg1, w1)
    | None => (lg1, w1)
    end in
  match udsPath (fst lw2) with
  | Some _ => writeToWS_with env entry message lw2
  | None => lw2
  end.

End Sequencer.

(** The text [\"name\":] of an object member's key, as the source spells it in
    its literals. *)
Definition key (name : string) : string := quoted name ++ ":".

(** ** [src/lib/logger.cpp] *)
Module Lib.

(** The payload [writeToWS] streams into a [std::stringstream]: the two
    identifiers are inserted bare, the message as it is. *)
Definition payload (entry : log_entry_t) (message : string) : string :=
  "{" ++
  key "timestamp" ++ dec (e_timestamp entry) ++ "," ++
  key "type" ++ str1 ch_quote ++ to_string_type (e_type entry)
    ++ str1 ch_quote ++ "," ++
  key "severity" ++ str1 ch_quote ++ to_string_sev (e_sev entry)
    ++ str1 ch_quote ++ "," ++
  key "activity_uuid" ++ dec (e_activity_uuid entry) ++ "," ++
  key "seq_id" ++ dec (e_seq_id entry) ++ "," ++
  key "parent_uuid" ++ dec (e_parent_uuid entry) ++ "," ++
  key "message" ++ str1 ch_quote ++ message ++ str1 ch_quote ++
  "}".

Definition writeToWS := writeToWS_with payload.
Definition log := log_with payload.

End Lib.

(** ** [src/unnamed/part_001], the revision with [escape_json] *)
Module Part001.

(** [static std::string escape_json(const std::string &s)]: seven characters
    have a case, every other one is copied by the [default] branch. *)
Fixpoint escape_json (s : string) : string :=
  match s with
  | EmptyString => EmptyString
  | String c s' =>
      (if Ascii.eqb c ch_quote then String ch_slash (str1 ch_quote)
       else if Ascii.eqb c ch_slash then String ch_slash (str1 ch_slash)
       else if Ascii.eqb c ch_bs then String ch_slash "b"
       else if Ascii.eqb c ch_ff then String ch_slash "f"
       else if Ascii.eqb c ch_nl then String ch_slash "n"
       else if Ascii.eqb c ch_cr then String ch_slash "r"
       else if Ascii.eqb c ch_tab then String ch_slash "t"
       else str1 c)
      ++ escape_json s'
  end.

(** The payload [writeToWS] formats with [std::format]: the two identifiers
    stand between double quotes, the message goes through [escape_json]. *)
Definition payload (entry : log_entry_t) (message : string) : string :=
  "{" ++
  key "timestamp" ++ dec (e_timestamp entry) ++ "," ++
  key "type" ++ str1 ch_quote ++ to_string_type (e_type entry)
    ++ str1 ch_quote ++ "," ++
  key "severity" ++ str1 ch_quote ++ to_string_sev (e_sev entry)
    ++ str1 ch_quote ++ "," ++
  key "activity_uuid" ++ str1 ch_quote ++ dec (e_activity_uuid entry)
    ++ str1 ch_quote ++ "," ++
  key "seq_id" ++ dec (e_seq_id entry) ++ "," ++
  key "parent_uuid" ++ str1 ch_quote ++ dec (e_parent_uuid entry)
    ++ str1 ch_quote ++ "," ++
  key "message" ++ str1 ch_quote ++ escape_json message ++ str1 ch_quote ++
  "}".

Definition writeToWS := writeToWS_with payload.
Definition log := log_with payload.

End Part001.

(** Scenario values used below. *)
Definition scenario_message : string := "Test log message number 1".
Definition both_sinks_env : ctor_env := mk_ctor_env true EmptyString 3 EmptyString.
Definition quiet_env (now : N) : call_env := mk_env now true 0 EmptyString.

(* ------------------------------------------------------------------ *)
(** ** The relay bridge of [Logger::start_server]

    The same text in both revisions. A connection is known by its address; the
    [std::set<crow::websocket::connection*>] is a list in ascending order
    without repetition, which is also the order the range-for visits. *)

Definition BUFFER_SIZE : nat := 1024.

Fixpoint take (n : nat) (s : string) {struct s} : string :=
  match s with
  | EmptyString => EmptyString
  | String c s' =>
      match n with
      | O => EmptyString
      | S n' => String c (take n' s')
      end
  end.

(** The text a [const char*] denotes: the bytes before the first zero byte.
    This is what [std::string(buffer)] and [std::cout << buffer] read. *)
Fixpoint c_str (s : string) : string :=
  match s with
  | EmptyString => EmptyString
  | String c s' => if Ascii.eqb c ch_nul then EmptyString else String c (c_str s')
  end.

Fixpoint set_insert (c : N) (s : list N) : list N :=
  match s with
  | [] => [c]
  | x :: s' =>
      if (c <? x)%N then c :: s
      else if (c =? x)%N then s
      else x :: set_insert c s'
  end.

Definition set_erase (c : N) (s : list N) : list N :=
  filter (fun x => negb (x =? c)%N) s.

(** The order [std::set] keeps its elements in. *)
Definition ascending (s : list N) : Prop := StronglySorted N.lt s.

(** One call [conn->send_text(text)]; [sc_thrown] is [what()] of the exception
    it raised, if it raised one. *)
Record send_text_call := mk_send {
  sc_to : N;
  sc_text : string;
  sc_thrown : option string
}.

Record Bridge := mk_Bridge {
  wsConnections : list N;
  b_sends : list send_text_call;   (* every send_text call, oldest first *)
  b_cout : list string;
  b_cerr : list string
}.

Definition bridge_init : Bridge := mk_Bridge [] [] [] [].

(** What [recv(sockfd, buffer, BUFFER_SIZE - 1, 0)] meets: an error, or the
    next datagram of the socket. *)
Inductive recv_input :=
| RecvError
| RecvDatagram (d : string).

(** The value [recv] returns and the bytes it leaves at the start of
    [buffer]: at most [BUFFER_SIZE - 1] bytes of the datagram, the rest of
    which is dropped. *)
Definition recv (r : recv_input) : Z * string :=
  match r with
  | RecvError => ((-1)%Z, EmptyString)
  | RecvDatagram d =>
      let got := take (BUFFER_SIZE - 1) d in
      (Z.of_nat (String.length got), got)
  end.

Inductive event :=
| OnOpen (c : N)
| OnClose (c : N) (reason : string)
| Receive (r : recv_input) (throws : N -> option string).

(** The body of the range-for over [wsConnections]: the [try] block and its
    [catch], for each connection in turn. *)
Fixpoint broadcast (text : string) (throws : N -> option string)
    (conns : list N) (sends : list send_text_call) (cerr : list string)
    : list send_text_call * list string :=
  match conns with
  | [] => (sends, cerr)
  | conn :: rest =>
      match throws conn with
      | None =>
          broadcast text throws rest (sends ++ [mk_send conn text None]) cerr
      | Some what =>
          broadcast text throws rest
            (sends ++ [mk_send conn text (Some what)])
            (cerr ++ ["Failed to send via websocket: " ++ what])
      end
  end.

(** One callback of the websocket route, or one turn of the [while (true)]
    loop of the bridge thread; each runs under [wsMutex]. After [recv] the
    loop stores a zero byte at [buffer[n]], so the text it prints and sends is
    [c_str] of the bytes received. A turn with [n <= 0] sleeps. *)
Definition step (ev : event) (b : Bridge) : Bridge :=
  match ev with
  | OnOpen c =>
      mk_Bridge (set_insert c (wsConnections b)) (b_sends b)
        (b_cout b ++ ["WebSocket connection opened"]) (b_cerr b)
  | OnClose c reason =>
      mk_Bridge (set_erase c (wsConnections b)) (b_sends b)
        (b_cout b ++ ["WebSocket connection closed: " ++ reason]) (b_cerr b)
  | Receive r throws =>
      let '(n, buffer) := recv r in
      if (0 <? n)%Z then
        let text := c_str buffer in
        let '(sends, cerr) :=
          broadcast text throws (wsConnections b) (b_sends b) (b_cerr b) in
        mk_Bridge (wsConnections b) sends
          (b_cout b ++ ["UDS Bridge received: " ++ text]) cerr
      else b
  end.

Fixpoint run (evs : list event) (b : Bridge) : Bridge :=
  match evs with
  | [] => b
  | ev :: evs' => run evs' (step ev b)
  end.

(** The frames a connection got: the texts of the [send_text] calls on it
    that returned. *)
Definition inbox_of (c : N) (sends : list send_text_call) : list string :=
  map sc_text
    (filter (fun s => (sc_to s =? c)%N &&
                      match sc_thrown s with None => true | Some _ => false end)
       sends).

Definition inbox (c : N) (b : Bridge) : list string := inbox_of c (b_sends b).

(** The texts [send_text] was called with on a connection, whatever the call
    did. *)
Definition offered (c : N) (b : Bridge) : list string :=
  map sc_text (filter (fun s => (sc_to s =? c)%N) (b_sends b)).

Definition no_nul (s : string) : Prop := c_str s = s.

(* ------------------------------------------------------------------ *)
(** ** Reading a payload back: JSON after RFC 8259

    The reader against which the payloads are judged. It reads one object
    whose members are unsigned integers or strings, without insignificant
    white space, which is the shape both revisions emit. In a string it
    refuses what the grammar refuses: a raw control character (below 0x20),
    an unknown escape, a missing closing quote. Bytes from 0x80 on are taken
    as they come; whether they form UTF-8 is not looked at. *)

Definition is_digit (c : ascii) : bool :=
  ((48 <=? N_of_ascii c) && (N_of_ascii c <=? 57))%N.

Definition is_control (c : ascii) : bool := (N_of_ascii c <? 32)%N.

Definition hex_val (c : ascii) : option N :=
  let n := N_of_ascii c in
  if ((48 <=? n) && (n <=? 57))%N then Some (n - 48)%N
  else if ((65 <=? n) && (n <=? 70))%N then Some (n - 55)%N
  else if ((97 <=? n) && (n <=? 102))%N then Some (n - 87)%N
  else None.

Definition hex4 (a b c d : ascii) : option N :=
  match hex_val a, hex_val b, hex_val c, hex_val d with
  | Some x, Some y, Some z, Some w => Some (((x * 16 + y) * 16 + z) * 16 + w)%N
  | _, _, _, _ => None
  end.

(** UTF-8 of a code point of the basic plane. *)
Definition utf8 (cp : N) : string :=
  if (cp <? 128)%N then str1 (ascii_of_N cp)
  else if (cp <? 2048)%N then
    String (ascii_of_N (192 + cp / 64)) (str1 (ascii_of_N (128 + cp mod 64)))
  else
    String (ascii_of_N (224 + cp / 4096))
      (String (ascii_of_N (128 + (cp / 64) mod 64))
         (str1 (ascii_of_N (128 + cp mod 64)))).

Definition is_surrogate (cp : N) : bool := ((55296 <=? cp) && (cp <=? 57343))%N.

(** The character a two-character escape stands for. *)
Definition simple_escape (e : ascii) : option ascii :=
  if Ascii.eqb e ch_quote then Some ch_quote
  else if Ascii.eqb e ch_slash then Some ch_slash
  else if Ascii.eqb e "/" then Some "/"%char
  else if Ascii.eqb e "b" then Some ch_bs
  else if Ascii.eqb e "f" then Some ch_ff
  else if Ascii.eqb e "n" then Some ch_nl
  else if Ascii.eqb e "r" then Some ch_cr
  else if Ascii.eqb e "t" then Some ch_tab
  else None.

(** The rest of a string after its opening quote: the bytes it denotes and the
    text after its closing quote. A [\u] escape of a surrogate is refused. *)
Fixpoint read_string (s : string) : option (string * string) :=
  match s with
  | EmptyString => None
  | String c s1 =>
      if Ascii.eqb c ch_quote then Some (EmptyString, s1)
      else if Ascii.eqb c ch_slash then
        match s1 with
        | EmptyString => None
        | String e s2 =>
            if Ascii.eqb e "u" then
              match s2 with
              | String h1 (String h2 (String h3 (String h4 s3))) =>
                  match hex4 h1 h2 h3 h4 with
                  | Some cp =>
                      if is_surrogate cp then None
                      else match read_string s3 with
                           | Some (v, r) => Some (utf8 cp ++ v, r)
                           | None => None
                           end
                  | None => None
                  end
              | _ => None
              end
            else
              match simple_escape e with
              | Some b =>
                  match read_string s2 with
                  | Some (v, r) => Some (String b v, r)
                  | None => None
                  end
              | None => None
              end
        end
      else if is_control c then None
      else match read_string s1 with
           | Some (v, r) => Some (String c v, r)
           | None => None
           end
  end.

(** The longest prefix of digits, and what follows it. *)
Fixpoint span_digits (s : string) : string * string :=
  match s with
  | EmptyString => (EmptyString, EmptyString)
  | String c s' =>
      if is_digit c then
        let '(d, r) := span_digits s' in (String c d, r)
      else (EmptyString, s)
  end.

(** An unsigned integer: one digit or more, no leading zero. *)
Definition read_number (s : string) : option (N * string) :=
  let '(ds, rest) := span_digits s in
  match ds with
  | EmptyString => None
  | String c ds' =>
      if (Ascii.eqb c "0" && negb (String.eqb ds' EmptyString))%bool then None
      else match NilZero.uint_of_string ds with
           | Some u => Some (N.of_uint u, rest)
           | None => None
           end
  end.

Inductive jvalue :=
| JNum (n : N)
| JStr (s : string).

Definition read_value (s : string) : option (jvalue * string) :=
  match s with
  | EmptyString => None
  | String c s' =>
      if Ascii.eqb c ch_quote then
        match read_string s' with
        | Some (v, r) => Some (JStr v, r)
        | None => None
        end
      else
        match read_number s with
        | Some (n, r) => Some (JNum n, r)
        | None => None
        end
  end.

(** The members of an object after its opening brace, up to the closing
    brace, which has to end the text. Each member takes at least one
    character, so the length of the text is fuel enough. *)
Fixpoint read_members (fuel : nat) (s : string)
    : option (list (string * jvalue)) :=
  match fuel with
  | O => None
  | S fuel' =>
      match s with
      | EmptyString => None
      | String c s1 =>
          if negb (Ascii.eqb c ch_quote) then None
          else
            match read_string s1 with
            | Some (k, String colon s2) =>
                if negb (Ascii.eqb colon ":") then None
                else
                  match read_value s2 with
                  | Some (v, String d s3) =>
                      if Ascii.eqb d "," then
                        match read_members fuel' s3 with
                        | Some ms => Some ((k, v) :: ms)
                        | None => None
                        end
                      else if Ascii.eqb d "}" then
                        match s3 with
                        | EmptyString => Some [(k, v)]
                        | String _ _ => None
                        end
                      else None
                  | _ => None
                  end
            | _ => None
            end
      end
  end.

Definition json_object (s : string) : option (list (string * jvalue)) :=
  match s with
  | EmptyString => None
  | String c s1 =>
      if negb (Ascii.eqb c "{") then None
      else if String.eqb s1 "}" then Some []
      else read_members (String.length s1) s1
  end.

Fixpoint member (name : string) (ms : list (string * jvalue)) : option jvalue :=
  match ms with
  | [] => None
  | (k, v) :: ms' => if String.eqb k name then Some v else member name ms'
  end.

(** The seven fields of the wire format. *)
Record wire_entry := mk_wire {
  wx_timestamp : N;
  wx_type : type_t;
  wx_severity : severity_t;
  wx_activity_uuid : N;
  wx_seq_id : N;
  wx_parent_uuid : N;
  wx_message : string
}.

Definition wire_of (entry : log_entry_t) (message : string) : wire_entry :=
  mk_wire (e_timestamp entry) (e_type entry) (e_sev entry)
    (e_activity_uuid entry) (e_seq_id entry) (e_parent_uuid entry) message.

Definition type_of_string (s : string) : option type_t :=
  if String.eqb s "OK" then Some OK
  else if String.eqb s "INFO" then Some INFO
  else if String.eqb s "WARNING" then Some WARNING
  else if String.eqb s "ERROR" then Some ERROR
  else if String.eqb s "PANIC" then Some PANIC
  else None.

Definition sev_of_string (s : string) : option severity_t :=
  if String.eqb s "NONE" then Some NONE
  else if String.eqb s "LOW" then Some LOW
  else if String.eqb s "MID" then Some MID
  else if String.eqb s "HIGH" then Some HIGH
  else None.

Definition as_number (v : option jvalue) : option N :=
  match v with
  | Some (JNum n) => Some n
  | _ => None
  end.

Definition as_string (v : option jvalue) : option string :=
  match v with
  | Some (JStr s) => Some s
  | _ => None
  end.

(** An identifier is read from a number or from a string of digits, the two
    renderings the wire format allows. *)
Definition as_identifier (v : option jvalue) : option N :=
  match v with
  | Some (JNum n) => Some n
  | Some (JStr s) =>
      match read_number s with
      | Some (n, EmptyString) => Some n
      | _ => None
      end
  | None => None
  end.

Definition decode_entry (payload : string) : option wire_entry :=
  match json_object payload with
  | None => None
  | Some ms =>
      match as_number (member "timestamp" ms),
            as_string (member "type" ms),
            as_string (member "severity" ms),
            as_identifier (member "activity_uuid" ms),
            as_number (member "seq_id" ms),
            as_identifier (member "parent_uuid" ms),
            as_string (member "message" ms) with
      | Some ts, Some ty, Some sv, Some au, Some sq, Some pu, Some msg =>
          match type_of_string ty, sev_of_string sv with
          | Some t, Some s => Some (mk_wire ts t s au sq pu msg)
          | _, _ => None
          end
      | _, _, _, _, _, _, _ => None
      end
  end.

(** A message [escape_json] is complete for: no control character other than
    the five it has a case for. *)
Definition escapable (c : ascii) : bool :=
  negb (is_control c)
  || Ascii.eqb c ch_bs || Ascii.eqb c ch_ff || Ascii.eqb c ch_nl
  || Ascii.eqb c ch_cr || Ascii.eqb c ch_tab.

Fixpoint all_chars (p : ascii -> bool) (s : string) : bool :=
  match s with
  | EmptyString => true
  | String c s' => p c && all_chars p s'
  end.

(** A character that can stand for itself inside a JSON string. *)
Definition plain (c : ascii) : bool :=
  negb (is_control c) && negb (Ascii.eqb c ch_quote)
  && negb (Ascii.eqb c ch_slash).

Definition starts_with_digit (s : string) : bool :=
  match s with
  | EmptyString => false
  | String c _ => is_digit c
  end.

(** How many times a character occurs. *)
Fixpoint occurrences (c : ascii) (s : string) : nat :=
  match s with
  | EmptyString => 0
  | String x s' => (if Ascii.eqb x c then 1 else 0) + occurrences c s'
  end.

(* ------------------------------------------------------------------ *)
(** ** Executions of a logger *)

(** The arguments of one call of [log] and what it meets outside. *)
Record call := mk_call {
  c_env : call_env;
  c_type : type_t;
  c_sev : severity_t;
  c_message : string;
  c_activity_uuid : N;
  c_parent_uuid : N
}.

Definition do_call (payload_of : log_entry_t -> string -> string) (c : call)
    (lw : Logger * World) : Logger * World :=
  log_with payload_of (c_env c) (c_type c) (c_sev c) (c_message c)
    (c_activity_uuid c) (c_parent_uuid c) lw.

(** Calls in the order in which they take [writeMutex]. *)
Fixpoint run_calls (payload_of : log_entry_t -> string -> string)
    (cs : list call) (lw : Logger * World) : Logger * World :=
  match cs with
  | [] => lw
  | c :: cs' => run_calls payload_of cs' (do_call payload_of c lw)
  end.

(** [interleaving threads sched]: [sched] runs every call of every thread
    once, the calls of one thread in their program order. *)
Inductive interleaving {A : Type} : list (list A) -> list A -> Prop :=
| il_done : forall threads,
    Forall (fun t => t = []) threads -> interleaving threads []
| il_next : forall before x t after sched,
    interleaving (before ++ t :: after) sched ->
    interleaving (before ++ (x :: t) :: after) (x :: sched).

(** The payload of the scenario as the specification prints it, identifiers
    as numbers, for a clock reading [t]. *)
Definition scenario_payload (t : N) : string :=
  "{" ++ quoted "timestamp" ++ ":" ++ dec t ++ "," ++
  quoted "type" ++ ":" ++ quoted "INFO" ++ "," ++
  quoted "severity" ++ ":" ++ quoted "MID" ++ "," ++
  quoted "activity_uuid" ++ ":12345," ++
  quoted "seq_id" ++ ":1," ++
  quoted "parent_uuid" ++ ":0," ++
  quoted "message" ++ ":" ++ quoted "Test log message number 1" ++ "}".

(** The same with the two identifiers between double quotes. *)
Definition scenario_payload_quoted_ids (t : N) : string :=
  "{" ++ quoted "timestamp" ++ ":" ++ dec t ++ "," ++
  quoted "type" ++ ":" ++ quoted "INFO" ++ "," ++
  quoted "severity" ++ ":" ++ quoted "MID" ++ "," ++
  quoted "activity_uuid" ++ ":" ++ quoted "12345" ++ "," ++
  quoted "seq_id" ++ ":1," ++
  quoted "parent_uuid" ++ ":" ++ quoted "0" ++ "," ++
  quoted "message" ++ ":" ++ quoted "Test log message number 1" ++ "}".

Definition scenario_line : string :=
  "[INFO], {MID}, Activity: 12345 Seq: 1 Parent: 0 -- Test log message number 1"
  ++ str1 ch_nl.

(* ------------------------------------------------------------------ *)
(** ** What a run leaves behind, call by call *)

(** The entry [log] builds for a call that finds the counter incremented to
    [seq]. *)
Definition entry_of_call (seq : N) (c : call) : log_entry_t :=
  mk_entry (c_type c) (c_sev c) (env_now (c_env c)) (c_activity_uuid c) seq
    (c_parent_uuid c) 0 (N.of_nat (String.length (c_message c))).

(** The entries of a run that starts with the counter at [counter]. *)
Fixpoint entries_from (counter : N) (cs : list call) : list log_entry_t :=
  match cs with
  | [] => []
  | c :: cs' =>
      let seq := incr64 counter in
      entry_of_call seq c :: entries_from seq cs'
  end.

(** The calls up to the first one whose write the system refuses. *)
Fixpoint written_calls (cs : list call) : list call :=
  match cs with
  | [] => []
  | c :: cs' => if env_write_ok (c_env c) then c :: written_calls cs' else []
  end.

(** The lines [writeToFS] formats for the calls of a run, one after the
    other. *)
Fixpoint file_lines (counter : N) (cs : list call) : string :=
  match cs with
  | [] => EmptyString
  | c :: cs' =>
      let seq := incr64 counter in
      fs_line (entry_of_call seq c) (c_message c) ++ file_lines seq cs'
  end.

(** The calls of [sendto] a run makes on the descriptor [sock]. *)
Fixpoint sendto_calls_from (payload_of : log_entry_t -> string -> string)
    (sock : Z) (counter : N) (cs : list call) : list sendto_call :=
  match cs with
  | [] => []
  | c :: cs' =>
      let seq := incr64 counter in
      mk_sendto (payload_of (entry_of_call seq c) (c_message c))
        (sendto sock (c_env c))
      :: sendto_calls_from payload_of sock seq cs'
  end.

(** Character classes used to describe what the texts hold. *)
Definition printable (c : ascii) : bool :=
  ((32 <=? N_of_ascii c) && (N_of_ascii c <? 127))%N.

Definition raw_break (c : ascii) : bool :=
  Ascii.eqb c ch_bs || Ascii.eqb c ch_ff || Ascii.eqb c ch_nl
  || Ascii.eqb c ch_cr || Ascii.eqb c ch_tab.

Definition not_nul (c : ascii) : bool := negb (Ascii.eqb c ch_nul).

(** The text one turn of the bridge loop relays, if it relays one. *)
Definition frame_of (r : recv_input) : option string :=
  let '(n, buffer) := recv r in
  if (0 <? n)%Z then Some (c_str buffer) else None.

(** The texts relayed over a sequence of events, in the order received. *)
Fixpoint frames (evs : list event) : list string :=
  match evs with
  | [] => []
  | Receive r _ :: evs' =>
      match frame_of r with
      | Some text => text :: frames evs'
      | None => frames evs'
      end
  | _ :: evs' => frames evs'
  end.

(** An event that neither closes the connection [c] nor makes a send to it
    throw. *)
Definition spares (c : N) (ev : event) : Prop :=
  match ev with
  | OnOpen _ => True
  | OnClose c' _ => c' <> c
  | Receive _ throws => throws c = None
  end.

(** The line a failed [send_text] leaves on [std::cerr]. *)
Definition send_failure_lines (s : send_text_call) : list string :=
  match sc_thrown s with
  | Some what => ["Failed to send via websocket: " ++ what]
  | None => []
  end.

(* ------------------------------------------------------------------ *)
(** ** [example.cpp], the revision that logs [INFO], [MID]
       (in [src/unnamed/part_000])

    [main] builds a logger on two paths under [/tmp], starts the server and
    calls [log] in a loop, [i] running from 0; the message is
    [std::format("Test log message number {}", i + 1)] and the activity is
    12345. The loop bound, 10 in the source, is the parameter [count];
    [env_at i] is what the call of turn [i] meets outside. *)

Definition example_message (i : N) : string :=
  "Test log message number " ++ dec (i + 1).

Fixpoint example_loop (count : nat) (i : N) (env_at : N -> call_env)
    (lw : Logger * World) : Logger * World :=
  match count with
  | O => lw
  | S count' =>
      example_loop count' (i + 1) env_at
        (Lib.log (env_at i) INFO MID (example_message i) 12345 0 lw)
  end.

Definition example_main (cenv : ctor_env) (env_at : N -> call_env)
    : Logger * World :=
  example_loop 10 0 env_at
    (Logger_new (Some "/tmp/a.0") (Some "/tmp/b.0") cenv empty_world).

(** The line of the file for the [k]-th call of the example. *)
Definition example_line (k : N) : string :=
  "[INFO], {MID}, Activity: 12345 Seq: " ++ dec k
  ++ " Parent: 0 -- Test log message number " ++ dec k ++ str1 ch_nl.

Fixpoint join (texts : list string) : string :=
  match texts with
  | [] => EmptyString
  | t :: texts' => t ++ join texts'
  end.

(* ------------------------------------------------------------------ *)
(** ** A call of [log] that may not come back

    The socket of the logger comes from [socket(AF_UNIX, SOCK_DGRAM, 0)] and
    is written with [sendto(udsSock, ..., 0, ...)]: no [SOCK_NONBLOCK], no
    [MSG_DONTWAIT], no send timeout. On such a socket [sendto] waits while
    the receive queue of the socket bound to the address is full. [stuck]
    says that this queue is full and is not read again: the call then stays
    in [sendto], inside [log], with [writeMutex] held. On a negative
    descriptor [sendto] fails at once. *)



(** The member of a name a reader finds when it keeps the last of several,
    as [JSON.parse] in the page script does. *)
Definition member_last (name : string) (ms : list (string * jvalue))
    : option jvalue :=
  member name (rev ms).

(** Two calls with the same arguments, clock reading and fate of the write,
    whatever [sendto] answers to each. *)
Definition same_call_but_sendto (c1 c2 : call) : Prop :=
  c_type c1 = c_type c2 /\ c_sev c1 = c_sev c2 /\
  c_message c1 = c_message c2 /\
  c_activity_uuid c1 = c_activity_uuid c2 /\
  c_parent_uuid c1 = c_parent_uuid c2 /\
  env_now (c_env c1) = env_now (c_env c2) /\
  env_write_ok (c_env c1) = env_write_ok (c_env c2).

(* ================================================================== *)
(** * Properties of the sequencer *)

Section SequencerFacts.

Variable payload_of : log_entry_t -> string -> string.

Lemma writeToFS_keeps env entry message lg w :
  let r := writeToFS env entry message (lg, w) in
  seq_id (fst r) = seq_id lg /\ udsPath (fst r) = udsPath lg /\
  logFilePath (fst r) = logFilePath lg /\ udsSock (fst r) = udsSock lg /\
  w_entries (snd r) = w_entries w /\ w_sendto (snd r) = w_sendto w.
Proof.
  unfold writeToFS.
  destruct (negb (of_is_open (logFileStream lg))); simpl; repeat split.
Qed.

Lemma writeToWS_keeps env entry message lg w :
  let r := writeToWS_with payload_of env entry message (lg, w) in
  fst r = lg /\ w_entries (snd r) = w_entries w.
Proof.
  unfold writeToWS_with.
  destruct (sendto (udsSock lg) env <? 0)%Z; simpl; split; reflexivity.
Qed.

(** One call: the counter goes up by one (modulo 2^64) and one entry that
    carries the new value joins the history. *)
Lemma log_with_counter env type sev message au pu lg w :
  let r := log_with payload_of env type sev message au pu (lg, w) in
  seq_id (fst r) = incr64 (seq_id lg) /\
  w_entries (snd r) =
    (w_entries w ++
     [mk_entry type sev (env_now env) au (incr64 (seq_id lg)) pu 0
        (N.of_nat (String.length message))])%list.
Proof.
  unfold log_with. cbn [logFilePath udsPath].
  set (entry := mk_entry _ _ _ _ _ _ _ _).
  set (lg1 := mk_Logger _ _ _ _ _).
  set (w1 := mk_World _ _ _).
  destruct (logFilePath lg) as [p|].
  - pose proof (writeToFS_keeps env entry message lg1 w1) as H.
    destruct (writeToFS env entry message (lg1, w1)) as [lg2 w2].
    cbn [fst snd] in *. destruct H as (Hs & Hu & _ & _ & He & _).
    rewrite Hu. subst lg1; cbn [udsPath seq_id] in *.
    destruct (udsPath lg) as [u|].
    + pose proof (writeToWS_keeps env entry message lg2 w2) as H.
      destruct (writeToWS_with payload_of env entry message (lg2, w2))
        as [lg3 w3].
      cbn [fst snd] in *. destruct H as [-> ->]. rewrite Hs, He.
      split; reflexivity.
    + cbn [fst snd]. rewrite Hs, He. split; reflexivity.
  - cbn [fst]. subst lg1; cbn [udsPath].
    destruct (udsPath lg) as [u|].
    + set (lg1 := mk_Logger _ _ _ _ _).
      pose proof (writeToWS_keeps env entry message lg1 w1) as H.
      destruct (writeToWS_with payload_of env entry message (lg1, w1))
        as [lg3 w3].
      cbn [fst snd] in *. destruct H as [-> ->].
      split; reflexivity.
    + split; reflexivity.
Qed.

Lemma Logger_new_fresh lfp uds cenv w :
  seq_id (fst (Logger_new lfp uds cenv w)) = 0%N /\
  w_entries (snd (Logger_new lfp uds cenv w)) = w_entries w.
Proof.
  unfold Logger_new.
  destruct lfp; destruct uds; destruct (open_ok cenv);
    destruct (socket_ret cenv <? 0)%Z; split; reflexivity.
Qed.

(** The identifiers a run hands out, wrap-around included. *)
Lemma run_calls_seq_ids cs : forall lg w,
  map e_seq_id (w_entries (snd (run_calls payload_of cs (lg, w)))) =
  (map e_seq_id (w_entries w) ++
   map (fun i => ((seq_id lg + N.of_nat i) mod uint64_modulus)%N)
       (seq 1 (List.length cs)))%list.
Proof.
  induction cs as [|c cs IH]; intros lg w.
  - simpl. now rewrite List.app_nil_r.
  - cbn [run_calls length]. unfold do_call.
    pose proof (log_with_counter (c_env c) (c_type c) (c_sev c)
                  (c_message c) (c_activity_uuid c) (c_parent_uuid c) lg w)
      as H.
    destruct (log_with payload_of (c_env c) (c_type c) (c_sev c)
                (c_message c) (c_activity_uuid c) (c_parent_uuid c) (lg, w))
      as [lg' w'].
    cbn [fst snd] in H. destruct H as [Hs He].
    rewrite IH, He, Hs, List.map_app, <- List.app_assoc. f_equal.
    cbn [map e_seq_id app seq List.length]. f_equal.
    rewrite <- (List.seq_shift (List.length cs) 1), List.map_map.
    apply List.map_ext. intro i. unfold incr64.
    rewrite N.Div0.add_mod_idemp_l. f_equal. lia.
Qed.

(** The counter after a run. *)
Lemma run_calls_counter cs : forall lg w,
  (seq_id lg < uint64_modulus)%N ->
  seq_id (fst (run_calls payload_of cs (lg, w))) =
  ((seq_id lg + N.of_nat (List.length cs)) mod uint64_modulus)%N.
Proof.
  induction cs as [|c cs IH]; intros lg w Hlt.
  - cbn [run_calls List.length fst]. rewrite N.add_0_r.
    symmetry. now apply N.mod_small.
  - cbn [run_calls List.length]. unfold do_call.
    pose proof (log_with_counter (c_env c) (c_type c) (c_sev c)
                  (c_message c) (c_activity_uuid c) (c_parent_uuid c) lg w)
      as H.
    destruct (log_with payload_of (c_env c) (c_type c) (c_sev c)
                (c_message c) (c_activity_uuid c) (c_parent_uuid c) (lg, w))
      as [lg' w'].
    cbn [fst snd] in H. destruct H as [Hs _].
    rewrite IH; rewrite Hs; unfold incr64.
    + rewrite N.Div0.add_mod_idemp_l. f_equal. lia.
    + apply N.mod_lt. discriminate.
Qed.

Lemma interleaving_length {A : Type} (threads : list (list A)) sched :
  interleaving threads sched ->
  List.length sched = List.length (List.concat threads).
Proof.
  induction 1 as [threads Hall | before x t after sched _ IH].
  - induction Hall as [|t ts Ht _ IHall]; [reflexivity|].
    subst t. simpl. exact IHall.
  - simpl. rewrite IH.
    rewrite !List.concat_app, !List.length_app. simpl.
    rewrite !List.length_app. simpl.
    lia.
Qed.

End SequencerFacts.

(** C1. On one Logger, N calls of [log] issued by any number of threads, in
    whatever order the threads take the lock, hand out the identifiers
    1, 2, ..., N in that order, each once: the counter is 0 after
    construction and goes up by one per call. Nothing is assumed about the
    sinks: either may be absent, the file may have failed to open, any write
    or [sendto] may fail. N is below 2^64, the range of the counter. *)
Theorem log_seq_ids_are_1_to_N :
  forall (payload_of : log_entry_t -> string -> string)
         (lfp uds : option string) (cenv : ctor_env)
         (threads : list (list call)) (sched : list call),
    interleaving threads sched ->
    (N.of_nat (List.length (List.concat threads)) < uint64_modulus)%N ->
    let fresh := Logger_new lfp uds cenv empty_world in
    let final := run_calls payload_of sched fresh in
    seq_id (fst fresh) = 0%N /\
    map e_seq_id (w_entries (snd final)) =
      map N.of_nat (seq 1 (List.length (List.concat threads))) /\
    seq_id (fst final) = N.of_nat (List.length (List.concat threads)).
Proof.
  intros payload_of lfp uds cenv threads sched Hil Hbound fresh final.
  subst fresh final.
  rewrite <- (interleaving_length threads sched Hil) in *.
  destruct (Logger_new_fresh lfp uds cenv empty_world) as [Hzero Hnone].
  destruct (Logger_new lfp uds cenv empty_world) as [lg w].
  cbn [fst snd] in Hzero, Hnone.
  split; [exact Hzero|]. split.
  - rewrite run_calls_seq_ids, Hnone, Hzero.
    cbn [map w_entries empty_world app].
    apply List.map_ext_in. intros i Hi. apply List.in_seq in Hi.
    rewrite N.add_0_l. apply N.mod_small. lia.
  - rewrite run_calls_counter, Hzero by (rewrite Hzero; reflexivity).
    rewrite N.add_0_l. apply N.mod_small. exact Hbound.
Qed.

Lemma log_seq_ids_are_1_to_N_witness :
  let quiet := mk_call (quiet_env 5) INFO MID "a" 1 0 in
  let failing := mk_call (mk_env 6 false (-1) "refused") ERROR HIGH "b" 2 1 in
  let fresh :=
    Logger_new (Some "/tmp/a.0") None
      (mk_ctor_env false EmptyString (-1) EmptyString) empty_world in
  let final := run_calls Lib.payload [quiet; failing; quiet] fresh in
  seq_id (fst fresh) = 0%N /\
  map e_seq_id (w_entries (snd final)) = [1; 2; 3]%N /\
  seq_id (fst final) = 3%N.
Proof.
  intros quiet failing.
  apply (log_seq_ids_are_1_to_N Lib.payload (Some "/tmp/a.0") None
           (mk_ctor_env false EmptyString (-1) EmptyString)
           [[quiet; quiet]; [failing]] [quiet; failing; quiet]).
  - apply (il_next [] quiet [quiet] [[failing]]).
    apply (il_next [[quiet]] failing [] []).
    apply (il_next [] quiet [] [[]]).
    apply il_done. repeat constructor.
  - vm_compute. reflexivity.
Defined.

(** C10. The entry [log] builds has [offset] 0 and [length] the size of the
    message in bytes, and so has every entry of every run: no statement of
    the program stores anything else in [offset]. *)
Theorem log_entry_offset_zero_length_size :
  forall (payload_of : log_entry_t -> string -> string),
    (forall env type sev message au pu lg w,
        exists entry,
          w_entries
            (snd (log_with payload_of env type sev message au pu (lg, w))) =
          (w_entries w ++ [entry])%list /\
          e_offset entry = 0%N /\
          e_length entry = N.of_nat (String.length message)) /\
    (forall cs lfp uds cenv,
        map (fun e => (e_offset e, e_length e))
          (w_entries
             (snd (run_calls payload_of cs
                     (Logger_new lfp uds cenv empty_world)))) =
        map (fun c => (0%N, N.of_nat (String.length (c_message c)))) cs).
Proof.
  intro payload_of. split.
  - intros. eexists. split.
    + apply (log_with_counter payload_of env type sev message au pu lg w).
    + split; reflexivity.
  - intros cs lfp uds cenv.
    destruct (Logger_new_fresh lfp uds cenv empty_world) as [_ Hnone].
    destruct (Logger_new lfp uds cenv empty_world) as [lg w].
    cbn [snd] in Hnone. cbn [w_entries empty_world] in Hnone.
    assert (G : forall cs lg w,
      map (fun e => (e_offset e, e_length e))
        (w_entries (snd (run_calls payload_of cs (lg, w)))) =
      (map (fun e => (e_offset e, e_length e)) (w_entries w) ++
       map (fun c => (0%N, N.of_nat (String.length (c_message c)))) cs)%list).
    { clear. induction cs as [|c cs IH]; intros lg w.
      - simpl. now rewrite List.app_nil_r.
      - cbn [run_calls]. unfold do_call.
        pose proof (log_with_counter payload_of (c_env c) (c_type c) (c_sev c)
                      (c_message c) (c_activity_uuid c) (c_parent_uuid c) lg w)
          as H.
        destruct (log_with payload_of (c_env c) (c_type c) (c_sev c)
                    (c_message c) (c_activity_uuid c) (c_parent_uuid c)
                    (lg, w)) as [lg' w'].
        cbn [fst snd] in H. destruct H as [_ He].
        rewrite IH, He, List.map_app, <- List.app_assoc. reflexivity. }
    rewrite G, Hnone. reflexivity.
Qed.

(** C5, evaluated: a message with a line feed in it is written as it is, and
    the one call leaves two lines in the file, in both revisions. *)
Theorem file_sink_writes_line_feed_raw :
  let message := "a" ++ str1 ch_nl ++ "b" in
  let fresh :=
    Logger_new (Some "/tmp/a.0") (Some "/tmp/b.0") both_sinks_env
      empty_world in
  let file_of (r : Logger * World) := of_file (logFileStream (fst r)) in
  file_of (Lib.log (quiet_env 77) INFO MID message 12345 0 fresh) =
    "[INFO], {MID}, Activity: 12345 Seq: 1 Parent: 0 -- a" ++ str1 ch_nl
    ++ "b" ++ str1 ch_nl /\
  file_of (Part001.log (quiet_env 77) INFO MID message 12345 0 fresh) =
    file_of (Lib.log (quiet_env 77) INFO MID message 12345 0 fresh) /\
  occurrences ch_nl
    (file_of (Lib.log (quiet_env 77) INFO MID message 12345 0 fresh)) = 2.
Proof. vm_compute. repeat split. Qed.

(** C7, where the statement fails: in the revision with [escape_json] the
    payload of the scenario is not the one with bare identifiers. *)
Lemma scenario_part001_payload_differs :
  map st_payload
    (w_sendto
       (snd (Part001.log (quiet_env 77) INFO MID scenario_message 12345 0
               (Logger_new (Some "/tmp/a.0") (Some "/tmp/b.0") both_sinks_env
                  empty_world)))) <>
  [scenario_payload 77].
Proof. vm_compute. discriminate. Qed.

(** C7. On a fresh Logger with both sinks working, the call of the scenario
    appends exactly the line of the specification to the file, in both
    revisions. The one datagram it hands to [sendto] is the payload of the
    specification, identifiers as numbers, in [src/lib/logger.cpp]; in the
    revision with [escape_json] the two identifiers stand between double
    quotes. *)
Theorem scenario_line_and_payload :
  forall (p1 p2 : string) (cenv : ctor_env) (env : call_env),
    open_ok cenv = true -> (0 <= socket_ret cenv)%Z ->
    env_write_ok env = true ->
    let fresh := Logger_new (Some p1) (Some p2) cenv empty_world in
    let lib := Lib.log env INFO MID scenario_message 12345 0 fresh in
    let rev := Part001.log env INFO MID scenario_message 12345 0 fresh in
    of_file (logFileStream (fst lib)) = existing cenv ++ scenario_line /\
    w_sendto (snd lib) =
      [mk_sendto (scenario_payload (env_now env)) (env_sendto env)] /\
    of_file (logFileStream (fst rev)) = existing cenv ++ scenario_line /\
    w_sendto (snd rev) =
      [mk_sendto (scenario_payload_quoted_ids (env_now env)) (env_sendto env)].
Proof.
  intros p1 p2 [ok old fd err] [now wok ret serr]. cbn.
  intros -> Hfd ->.
  unfold Lib.log, Part001.log, log_with, Logger_new, writeToFS,
    writeToWS_with, sendto. cbn.
  destruct (Z.ltb_spec fd 0) as [Hneg|_]; [lia|]. cbn.
  destruct (Z.ltb_spec fd 0) as [Hneg|_]; [lia|].
  destruct (ret <? 0)%Z; cbn; repeat split.
Qed.

Lemma scenario_line_and_payload_witness :
  let fresh :=
    Logger_new (Some "/tmp/a.0") (Some "/tmp/b.0") both_sinks_env
      empty_world in
  let lib := Lib.log (quiet_env 77) INFO MID scenario_message 12345 0 fresh in
  let rev :=
    Part001.log (quiet_env 77) INFO MID scenario_message 12345 0 fresh in
  of_file (logFileStream (fst lib)) = scenario_line /\
  w_sendto (snd lib) = [mk_sendto (scenario_payload 77) 0] /\
  of_file (logFileStream (fst rev)) = scenario_line /\
  w_sendto (snd rev) = [mk_sendto (scenario_payload_quoted_ids 77) 0].
Proof.
  apply (scenario_line_and_payload "/tmp/a.0" "/tmp/b.0" both_sinks_env
           (quiet_env 77)).
  - reflexivity.
  - vm_compute. discriminate.
  - reflexivity.
Defined.

(* ================================================================== *)
(** * Properties of the relay bridge *)

Section BridgeFacts.

Local Open Scope list_scope.

Lemma Forall_set_insert (P : N -> Prop) c s :
  P c -> Forall P s -> Forall P (set_insert c s).
Proof.
  intros Hc Hs. induction Hs as [|x s Hx Hs IH]; simpl.
  - constructor; [exact Hc | constructor].
  - destruct (c <? x)%N; [constructor; [exact Hc | constructor; assumption]|].
    destruct (c =? x)%N; constructor; assumption.
Qed.

Lemma set_insert_ascending c s : ascending s -> ascending (set_insert c s).
Proof.
  unfold ascending. induction 1 as [|x s Hs IH Hx]; simpl.
  - repeat constructor.
  - destruct (N.ltb_spec c x) as [Hlt|Hge].
    + constructor; [constructor; assumption|].
      constructor; [exact Hlt|].
      eapply Forall_impl; [|exact Hx]. intros y Hy. cbv beta in Hy. lia.
    + destruct (N.eqb_spec c x) as [Heq|Hne].
      * constructor; assumption.
      * constructor; [exact IH|].
        apply Forall_set_insert; [lia | exact Hx].
Qed.

Lemma set_erase_ascending c s : ascending s -> ascending (set_erase c s).
Proof.
  unfold ascending, set_erase. induction 1 as [|x s Hs IH Hx]; simpl.
  - constructor.
  - destruct (negb (x =? c)%N); [|exact IH].
    constructor; [exact IH|].
    apply Forall_forall. intros y Hy. apply filter_In in Hy.
    rewrite Forall_forall in Hx. apply Hx. tauto.
Qed.

Lemma ascending_NoDup s : ascending s -> NoDup s.
Proof.
  induction 1 as [|x s Hs IH Hx]; constructor; [|exact IH].
  intro Hin. rewrite Forall_forall in Hx. specialize (Hx x Hin). lia.
Qed.

Lemma set_insert_In c s : In c (set_insert c s).
Proof.
  induction s as [|x s IH]; simpl; [now left|].
  destruct (N.ltb_spec c x); [now left|].
  destruct (N.eqb_spec c x) as [->|_]; [now left | now right].
Qed.

(** What the range-for does, in closed form: one call per connection, in
    the order of the set, and one line on [std::cerr] per call that threw. *)
Lemma broadcast_closed_form text throws conns : forall sends cerr,
  broadcast text throws conns sends cerr =
  (sends ++ map (fun c => mk_send c text (throws c)) conns,
   cerr ++ flat_map
             (fun c => match throws c with
                       | Some what =>
                           [("Failed to send via websocket: " ++ what)%string]
                       | None => []
                       end) conns).
Proof.
  induction conns as [|c conns IH]; intros sends cerr; simpl.
  - now rewrite !List.app_nil_r.
  - destruct (throws c) as [what|]; rewrite IH, <- !List.app_assoc;
      reflexivity.
Qed.

Lemma step_wsConnections_receive r throws b :
  wsConnections (step (Receive r throws) b) = wsConnections b.
Proof.
  unfold step. destruct (recv r) as [n buffer].
  destruct (0 <? n)%Z; [|reflexivity].
  rewrite broadcast_closed_form. reflexivity.
Qed.

Lemma step_ascending ev b :
  ascending (wsConnections b) -> ascending (wsConnections (step ev b)).
Proof.
  destruct ev as [c|c reason|r throws]; intro H.
  - apply set_insert_ascending, H.
  - apply set_erase_ascending, H.
  - now rewrite step_wsConnections_receive.
Qed.

Lemma run_ascending evs : forall b,
  ascending (wsConnections b) -> ascending (wsConnections (run evs b)).
Proof.
  induction evs as [|ev evs IH]; intros b H; simpl; [exact H|].
  apply IH, step_ascending, H.
Qed.

Lemma reachable_NoDup evs : NoDup (wsConnections (run evs bridge_init)).
Proof. apply ascending_NoDup, run_ascending. constructor. Qed.

Lemma inbox_of_app c s1 s2 :
  inbox_of c (s1 ++ s2) = inbox_of c s1 ++ inbox_of c s2.
Proof. unfold inbox_of. now rewrite List.filter_app, List.map_app. Qed.

(** The share of one connection in a broadcast over a set. *)
Lemma offered_broadcast text throws c conns :
  NoDup conns ->
  map sc_text
    (filter (fun s => (sc_to s =? c)%N)
       (map (fun c' => mk_send c' text (throws c')) conns)) =
  if in_dec N.eq_dec c conns then [text] else [].
Proof.
  induction 1 as [|x conns Hx Hnd IH]; [reflexivity|].
  cbn [map filter sc_to]. destruct (N.eqb_spec x c) as [->|Hne].
  - cbn [map sc_text]. rewrite IH.
    destruct (in_dec N.eq_dec c conns) as [Hin|_]; [contradiction|].
    destruct (in_dec N.eq_dec c (c :: conns)) as [_|Hout];
      [reflexivity | exfalso; apply Hout; now left].
  - rewrite IH.
    destruct (in_dec N.eq_dec c conns) as [Hin|Hout];
      destruct (in_dec N.eq_dec c (x :: conns)) as [Hin'|Hout'];
      try reflexivity.
    + exfalso. apply Hout'. now right.
    + exfalso. destruct Hin' as [Heq|Hin']; [congruence | contradiction].
Qed.

Lemma inbox_broadcast text throws c conns :
  NoDup conns ->
  inbox_of c (map (fun c' => mk_send c' text (throws c')) conns) =
  if in_dec N.eq_dec c conns
  then match throws c with None => [text] | Some _ => [] end
  else [].
Proof.
  unfold inbox_of.
  induction 1 as [|x conns Hx Hnd IH]; [reflexivity|].
  cbn [map filter sc_to sc_thrown]. destruct (N.eqb_spec x c) as [->|Hne].
  - destruct (in_dec N.eq_dec c (c :: conns)) as [_|Hout];
      [|exfalso; apply Hout; now left].
    destruct (in_dec N.eq_dec c conns) as [Hin|_]; [contradiction|].
    destruct (throws c) as [what|]; cbn [andb map sc_text]; rewrite IH;
      reflexivity.
  - cbn [andb]. rewrite IH.
    destruct (in_dec N.eq_dec c conns) as [Hin|Hout];
      destruct (in_dec N.eq_dec c (x :: conns)) as [Hin'|Hout'];
      try reflexivity.
    + exfalso. apply Hout'. now right.
    + exfalso. destruct Hin' as [Heq|Hin']; [congruence | contradiction].
Qed.

(** An accepted datagram: the state after the turn of the loop. *)
Lemma step_receive_datagram d throws b :
  d <> EmptyString ->
  step (Receive (RecvDatagram d) throws) b =
  let text := c_str (take (BUFFER_SIZE - 1) d) in
  mk_Bridge (wsConnections b)
    (b_sends b ++ map (fun c => mk_send c text (throws c)) (wsConnections b))
    (b_cout b ++ [("UDS Bridge received: " ++ text)%string])
    (b_cerr b ++ flat_map
                   (fun c => match throws c with
                             | Some what =>
                                 [("Failed to send via websocket: "
                                   ++ what)%string]
                             | None => []
                             end) (wsConnections b)).
Proof.
  intro Hd. unfold step, recv.
  assert (Hn : (0 <? Z.of_nat (String.length (take (BUFFER_SIZE - 1) d)))%Z
               = true).
  { destruct d as [|ch d]; [congruence|].
    change (BUFFER_SIZE - 1) with (S 1022). cbn [take String.length].
    apply Z.ltb_lt. lia. }
  rewrite Hn, broadcast_closed_form. reflexivity.
Qed.

(** Two bridges with the same set answer an event alike: the same set
    afterwards, the same calls added. *)
Lemma step_frame ev b1 b2 :
  wsConnections b1 = wsConnections b2 ->
  wsConnections (step ev b1) = wsConnections (step ev b2) /\
  exists delta,
    b_sends (step ev b1) = b_sends b1 ++ delta /\
    b_sends (step ev b2) = b_sends b2 ++ delta.
Proof.
  intro Heq. destruct ev as [c|c reason|r throws]; cbn [step].
  - cbn. rewrite Heq. split; [reflexivity|].
    exists []. now rewrite !List.app_nil_r.
  - cbn. rewrite Heq. split; [reflexivity|].
    exists []. now rewrite !List.app_nil_r.
  - destruct (recv r) as [n buffer]. destruct (0 <? n)%Z.
    + rewrite !broadcast_closed_form. cbn. rewrite Heq.
      split; [reflexivity|]. eexists. split; reflexivity.
    + split; [exact Heq|]. exists []. now rewrite !List.app_nil_r.
Qed.

Lemma run_frame evs : forall b1 b2,
  wsConnections b1 = wsConnections b2 ->
  exists delta,
    b_sends (run evs b1) = b_sends b1 ++ delta /\
    b_sends (run evs b2) = b_sends b2 ++ delta.
Proof.
  induction evs as [|ev evs IH]; intros b1 b2 Heq; simpl.
  - exists []. now rewrite !List.app_nil_r.
  - destruct (step_frame ev b1 b2 Heq) as (Hset & d1 & H1 & H2).
    destruct (IH _ _ Hset) as (d2 & G1 & G2).
    exists (d1 ++ d2). rewrite G1, G2, H1, H2, <- !List.app_assoc.
    split; reflexivity.
Qed.

Lemma take_all n s : String.length s <= n -> take n s = s.
Proof.
  revert n. induction s as [|c s IH]; intros [|n] H; simpl in *;
    try reflexivity; try lia.
  f_equal. apply IH. lia.
Qed.

End BridgeFacts.

(** C2, where the statement fails: a datagram with a zero byte in it reaches
    the subscriber cut at that byte. *)
Lemma relay_cuts_at_zero_byte :
  let d := "a" ++ str1 ch_nul ++ "b" in
  let b := run [OnOpen 7%N] bridge_init in
  let b' := step (Receive (RecvDatagram d) (fun _ => None)) b in
  wsConnections b = [7%N] /\
  fst (recv (RecvDatagram d)) = 3%Z /\
  inbox 7%N b' = ["a"] /\
  inbox 7%N b' <> [d].
Proof. vm_compute. repeat split. discriminate. Qed.

(** C2. A datagram the loop accepts, of at most [BUFFER_SIZE - 1] bytes and
    without a zero byte, is passed to [send_text] of every subscriber in the
    set at that moment, once and byte for byte; a subscriber whose
    [send_text] returns has it as its next frame. A subscriber that is not in
    the set at that moment never gets it: whatever happens afterwards, its
    frames are those it would have got had the datagram not arrived. *)
Theorem relay_delivers_text_datagram_unmodified :
  forall (evs : list event) (d : string) (throws : N -> option string),
    d <> EmptyString ->
    String.length d <= BUFFER_SIZE - 1 ->
    no_nul d ->
    let b := run evs bridge_init in
    let b' := step (Receive (RecvDatagram d) throws) b in
    (forall c, In c (wsConnections b) ->
               offered c b' = (offered c b ++ [d])%list) /\
    (forall c, In c (wsConnections b) -> throws c = None ->
               inbox c b' = (inbox c b ++ [d])%list) /\
    (forall c later, ~ In c (wsConnections b) ->
               inbox c (run later b') = inbox c (run later b)).
Proof.
  intros evs d throws Hd Hlen Hnul b b'.
  pose proof (reachable_NoDup evs) as Hnd. fold b in Hnd.
  assert (Hb' : b_sends b' =
                (b_sends b ++
                 map (fun c => mk_send c d (throws c)) (wsConnections b))%list).
  { subst b'. rewrite (step_receive_datagram d throws b Hd). cbn [b_sends].
    rewrite (take_all _ _ Hlen), Hnul. reflexivity. }
  split; [|split].
  - intros c Hin. unfold offered.
    rewrite Hb', List.filter_app, List.map_app, offered_broadcast by exact Hnd.
    destruct (in_dec N.eq_dec c (wsConnections b)); [reflexivity|contradiction].
  - intros c Hin Hok. unfold inbox.
    rewrite Hb', inbox_of_app, inbox_broadcast by exact Hnd.
    destruct (in_dec N.eq_dec c (wsConnections b)); [|contradiction].
    now rewrite Hok.
  - intros c later Hout.
    assert (Hset : wsConnections b' = wsConnections b)
      by apply step_wsConnections_receive.
    destruct (run_frame later b' b Hset) as (delta & H1 & H2).
    unfold inbox. rewrite H1, H2, Hb', !inbox_of_app.
    rewrite inbox_broadcast by exact Hnd.
    destruct (in_dec N.eq_dec c (wsConnections b)); [contradiction|].
    now rewrite List.app_nil_r.
Qed.

Lemma relay_delivers_text_datagram_unmodified_witness :
  let evs := [OnOpen 3%N; OnOpen 1%N; OnOpen 2%N; OnClose 2%N "gone"] in
  let d := Lib.payload (mk_entry INFO MID 77 12345 1 0 0 25) scenario_message in
  let throws := fun c : N => if (c =? 3)%N then Some "closed" else None in
  let b := run evs bridge_init in
  let b' := step (Receive (RecvDatagram d) throws) b in
  let later := [OnOpen 2%N; Receive (RecvDatagram "next") (fun _ => None)] in
  wsConnections b = [1%N; 3%N] /\
  offered 3%N b' = [d] /\
  inbox 1%N b' = [d] /\
  inbox 2%N (run later b') = ["next"].
Proof.
  intros evs d throws b b' later.
  destruct (relay_delivers_text_datagram_unmodified evs d throws)
    as (Hoffered & Hinbox & Hlate).
  - vm_compute. discriminate.
  - vm_compute. repeat constructor.
  - vm_compute. reflexivity.
  - split; [reflexivity|]. split; [|split].
    + apply (Hoffered 3%N). vm_compute. tauto.
    + apply (Hinbox 1%N); [vm_compute; tauto | reflexivity].
    + transitivity (inbox 2%N (run later b)); [|reflexivity].
      apply (Hlate 2%N later).
      vm_compute. intros [H|[H|[]]]; discriminate H.
Defined.

(** C6, where the statement fails: the subscriber whose [send_text] threw is
    still in the set when the broadcast is over, and the next datagram is
    sent to it again. *)
Lemma failing_subscriber_is_kept :
  let throws := fun c : N => if (c =? 1)%N then Some "closed" else None in
  let b := run [OnOpen 1%N; OnOpen 2%N] bridge_init in
  let b' := step (Receive (RecvDatagram "first") throws) b in
  let b'' := step (Receive (RecvDatagram "second") throws) b' in
  wsConnections b' = [1%N; 2%N] /\
  inbox 1%N b' = [] /\
  offered 1%N b'' = ["first"; "second"].
Proof. vm_compute. repeat split. Qed.

(** C6. When [send_text] throws for one subscriber during a broadcast, every
    other subscriber of the set is still served in that broadcast: one whose
    [send_text] returns gets the text as its next frame. The failure is
    written to [std::cerr] and nothing else is done about it: the broadcast
    leaves the set as it was, the failing subscriber included, and the next
    accepted datagram is sent to it again. *)
Theorem failing_send_spares_the_others :
  forall (evs : list event) (d : string) (throws : N -> option string),
    d <> EmptyString ->
    let b := run evs bridge_init in
    let b' := step (Receive (RecvDatagram d) throws) b in
    let text := c_str (take (BUFFER_SIZE - 1) d) in
    wsConnections b' = wsConnections b /\
    (forall c, In c (wsConnections b) -> throws c = None ->
               inbox c b' = (inbox c b ++ [text])%list) /\
    (forall c what, In c (wsConnections b) -> throws c = Some what ->
       In c (wsConnections b') /\
       inbox c b' = inbox c b /\
       In ("Failed to send via websocket: " ++ what) (b_cerr b') /\
       forall d2 throws2, d2 <> EmptyString ->
         offered c (step (Receive (RecvDatagram d2) throws2) b') =
         (offered c b' ++ [c_str (take (BUFFER_SIZE - 1) d2)])%list).
Proof.
  intros evs d throws Hd b b' text.
  pose proof (reachable_NoDup evs) as Hnd. fold b in Hnd.
  assert (Hset : wsConnections b' = wsConnections b)
    by apply step_wsConnections_receive.
  assert (Hb' : b_sends b' =
                (b_sends b ++ map (fun c => mk_send c text (throws c))
                                (wsConnections b))%list).
  { subst b'. rewrite (step_receive_datagram d throws b Hd). reflexivity. }
  split; [exact Hset|]. split.
  - intros c Hin Hok. unfold inbox.
    rewrite Hb', inbox_of_app, inbox_broadcast by exact Hnd.
    destruct (in_dec N.eq_dec c (wsConnections b)); [|contradiction].
    now rewrite Hok.
  - intros c what Hin Hthrow. repeat split.
    + now rewrite Hset.
    + unfold inbox. rewrite Hb', inbox_of_app, inbox_broadcast by exact Hnd.
      destruct (in_dec N.eq_dec c (wsConnections b)); [|contradiction].
      now rewrite Hthrow, List.app_nil_r.
    + subst b'. rewrite (step_receive_datagram d throws b Hd). cbn [b_cerr].
      apply in_or_app. right. apply in_flat_map.
      exists c. split; [exact Hin|]. rewrite Hthrow. now left.
    + intros d2 throws2 Hd2. unfold offered.
      rewrite (step_receive_datagram d2 throws2 b' Hd2). cbn [b_sends].
      rewrite List.filter_app, List.map_app, offered_broadcast
        by (rewrite Hset; exact Hnd).
      destruct (in_dec N.eq_dec c (wsConnections b')) as [_|Hout];
        [reflexivity|]. exfalso. apply Hout. now rewrite Hset.
Qed.

Lemma failing_send_spares_the_others_witness :
  let evs := [OnOpen 1%N; OnOpen 2%N] in
  let throws := fun c : N => if (c =? 1)%N then Some "closed" else None in
  let b := run evs bridge_init in
  let b' := step (Receive (RecvDatagram "first") throws) b in
  wsConnections b' = wsConnections b /\
  inbox 2%N b' = ["first"] /\
  In 1%N (wsConnections b').
Proof.
  intros evs throws b b'.
  destruct (failing_send_spares_the_others evs "first" throws) as (Hset & Hok & Hfail).
  - discriminate.
  - split; [exact Hset|]. split.
    + apply (Hok 2%N); [vm_compute; tauto | reflexivity].
    + apply (Hfail 1%N "closed"); [vm_compute; tauto | reflexivity].
Defined.

(* ================================================================== *)
(** * Properties of the payload *)

Section NumberFacts.

Lemma string_of_uint_digits d :
  all_chars is_digit (NilEmpty.string_of_uint d) = true.
Proof. induction d; simpl; auto. Qed.

Lemma nzhead_not_D0 d d' : Decimal.nzhead d <> Decimal.D0 d'.
Proof. induction d; simpl; try discriminate. exact IHd. Qed.

Lemma unorm_shape d :
  Decimal.unorm d <> Decimal.Nil /\
  forall d', Decimal.unorm d = Decimal.D0 d' -> d' = Decimal.Nil.
Proof.
  unfold Decimal.unorm.
  pose proof (nzhead_not_D0 d) as H.
  destruct (Decimal.nzhead d); split; try discriminate;
    intros d' E; try discriminate E.
  - now injection E as <-.
  - exfalso. exact (H _ eq_refl).
Qed.

Lemma to_uint_normal n : N.to_uint n = Decimal.unorm (N.to_uint n).
Proof.
  rewrite <- (DecimalN.Unsigned.to_of (N.to_uint n)).
  now rewrite DecimalN.Unsigned.of_to.
Qed.

Lemma dec_digits n : all_chars is_digit (dec n) = true.
Proof.
  unfold dec, NilZero.string_of_uint.
  destruct (N.to_uint n); try apply string_of_uint_digits. reflexivity.
Qed.

Lemma dec_head n :
  exists c ds, dec n = String c ds /\ is_digit c = true /\
               (Ascii.eqb c "0" && negb (String.eqb ds EmptyString))%bool
               = false.
Proof.
  pose proof (dec_digits n) as Hd. unfold dec in *.
  destruct (unorm_shape (N.to_uint n)) as [Hnil Hzero].
  rewrite <- to_uint_normal in Hnil, Hzero.
  destruct (N.to_uint n) as [|u|u|u|u|u|u|u|u|u|u];
    [congruence| | | | | | | | | |];
    cbn [NilZero.string_of_uint NilEmpty.string_of_uint] in *;
    eexists; eexists; (split; [reflexivity|]); (split; [reflexivity|]);
    try reflexivity.
  rewrite (Hzero u eq_refl). reflexivity.
Qed.

Lemma span_digits_app ds rest :
  all_chars is_digit ds = true -> starts_with_digit rest = false ->
  span_digits (ds ++ rest) = (ds, rest).
Proof.
  intros Hds Hrest. induction ds as [|c ds IH]; simpl in *.
  - destruct rest as [|r rest]; [reflexivity|].
    simpl in *. now rewrite Hrest.
  - apply andb_true_iff in Hds as [Hc Hds]. rewrite Hc, (IH Hds).
    reflexivity.
Qed.

Lemma read_number_dec n rest :
  starts_with_digit rest = false ->
  read_number (dec n ++ rest) = Some (n, rest).
Proof.
  intro Hrest. unfold read_number.
  rewrite (span_digits_app _ _ (dec_digits n) Hrest).
  destruct (dec_head n) as (c & ds & E & _ & Hlead).
  rewrite E, Hlead, <- E. unfold dec.
  assert (Hnn : N.to_uint n <> Decimal.Nil).
  { rewrite to_uint_normal. apply unorm_shape. }
  rewrite (NilZero.usu _ Hnn), DecimalN.Unsigned.of_to. reflexivity.
Qed.

Lemma append_empty_r s : s ++ EmptyString = s.
Proof. induction s; simpl; congruence. Qed.

Lemma append_assoc_r a b c : (a ++ b) ++ c = a ++ b ++ c.
Proof. induction a; simpl; congruence. Qed.

Lemma read_number_dec_alone n : read_number (dec n) = Some (n, EmptyString).
Proof.
  rewrite <- (append_empty_r (dec n)) at 1. now apply read_number_dec.
Qed.

Lemma read_value_dec n rest :
  starts_with_digit rest = false ->
  read_value (dec n ++ rest) = Some (JNum n, rest).
Proof.
  intro Hrest. unfold read_value.
  pose proof (read_number_dec n rest Hrest) as Hnum.
  destruct (dec_head n) as (c & ds & E & Hc & _).
  rewrite E in *. cbn [append].
  replace (Ascii.eqb c ch_quote) with false.
  - cbn [append] in Hnum. now rewrite Hnum.
  - symmetry. apply Ascii.eqb_neq. intros ->. discriminate Hc.
Qed.

End NumberFacts.

Section StringFacts.

(** Text without a quote, a backslash or a control character reads back as
    itself. *)
Lemma read_string_plain body tail :
  all_chars plain body = true ->
  read_string (body ++ String ch_quote tail) = Some (body, tail).
Proof.
  induction body as [|c body IH]; intro H; [reflexivity|].
  cbn [all_chars] in H. apply andb_true_iff in H as [Hc Hbody].
  unfold plain in Hc.
  apply andb_true_iff in Hc as [Hc Hslash].
  apply andb_true_iff in Hc as [Hctl Hquote].
  apply negb_true_iff in Hctl, Hquote, Hslash.
  cbn [append read_string]. rewrite Hquote, Hslash, Hctl, (IH Hbody).
  reflexivity.
Qed.

(** What [escape_json] writes reads back as the message, when the message
    has no control character outside the five with a case. *)
Lemma read_string_escape_json message tail :
  all_chars escapable message = true ->
  read_string (Part001.escape_json message ++ String ch_quote tail) =
  Some (message, tail).
Proof.
  induction message as [|c message IH]; intro H; [reflexivity|].
  cbn [all_chars] in H. apply andb_true_iff in H as [Hc Hrest].
  specialize (IH Hrest). cbn [Part001.escape_json].
  destruct (Ascii.eqb_spec c ch_quote) as [->|Hq];
    [cbn; rewrite IH; reflexivity|].
  destruct (Ascii.eqb_spec c ch_slash) as [->|Hs];
    [cbn; rewrite IH; reflexivity|].
  destruct (Ascii.eqb_spec c ch_bs) as [->|Hb];
    [cbn; rewrite IH; reflexivity|].
  destruct (Ascii.eqb_spec c ch_ff) as [->|Hf];
    [cbn; rewrite IH; reflexivity|].
  destruct (Ascii.eqb_spec c ch_nl) as [->|Hn];
    [cbn; rewrite IH; reflexivity|].
  destruct (Ascii.eqb_spec c ch_cr) as [->|Hr];
    [cbn; rewrite IH; reflexivity|].
  destruct (Ascii.eqb_spec c ch_tab) as [->|Ht];
    [cbn; rewrite IH; reflexivity|].
  unfold escapable in Hc.
  apply Ascii.eqb_neq in Hq, Hs, Hb, Hf, Hn, Hr, Ht.
  rewrite Hb, Hf, Hn, Hr, Ht, !orb_false_r in Hc.
  apply negb_true_iff in Hc.
  cbn [str1 append read_string]. rewrite Hq, Hs, Hc, IH. reflexivity.
Qed.

(** On text that needs no escape [escape_json] changes nothing. *)
Lemma escape_json_plain message :
  all_chars plain message = true -> Part001.escape_json message = message.
Proof.
  induction message as [|c message IH]; intro H; [reflexivity|].
  cbn [all_chars] in H. apply andb_true_iff in H as [Hc Hrest].
  unfold plain in Hc.
  apply andb_true_iff in Hc as [Hc Hslash].
  apply andb_true_iff in Hc as [Hctl Hquote].
  apply negb_true_iff in Hctl, Hquote, Hslash.
  cbn [Part001.escape_json]. rewrite Hquote, Hslash, (IH Hrest).
  destruct (Ascii.eqb_spec c ch_bs) as [->|_]; [discriminate Hctl|].
  destruct (Ascii.eqb_spec c ch_ff) as [->|_]; [discriminate Hctl|].
  destruct (Ascii.eqb_spec c ch_nl) as [->|_]; [discriminate Hctl|].
  destruct (Ascii.eqb_spec c ch_cr) as [->|_]; [discriminate Hctl|].
  destruct (Ascii.eqb_spec c ch_tab) as [->|_]; [discriminate Hctl|].
  reflexivity.
Qed.

Lemma plain_escapable message :
  all_chars plain message = true -> all_chars escapable message = true.
Proof.
  induction message as [|c message IH]; intro H; [reflexivity|].
  cbn [all_chars] in *. apply andb_true_iff in H as [Hc Hrest].
  rewrite (IH Hrest), andb_true_r. unfold plain in Hc. unfold escapable.
  apply andb_true_iff in Hc as [Hc _].
  apply andb_true_iff in Hc as [-> _]. reflexivity.
Qed.

Lemma type_of_to_string t : type_of_string (to_string_type t) = Some t.
Proof. destruct t; reflexivity. Qed.

Lemma sev_of_to_string s : sev_of_string (to_string_sev s) = Some s.
Proof. destruct s; reflexivity. Qed.

Lemma to_string_type_plain t : all_chars plain (to_string_type t) = true.
Proof. destruct t; reflexivity. Qed.

Lemma to_string_sev_plain s : all_chars plain (to_string_sev s) = true.
Proof. destruct s; reflexivity. Qed.

End StringFacts.

Section ObjectFacts.

Lemma read_members_more_fuel fuel : forall fuel' s ms,
  read_members fuel s = Some ms -> fuel <= fuel' ->
  read_members fuel' s = Some ms.
Proof.
  induction fuel as [|fuel IH]; intros fuel' s ms H Hle; [discriminate H|].
  destruct fuel' as [|fuel']; [lia|].
  cbn [read_members] in *.
  destruct s as [|c s1]; [discriminate H|].
  destruct (negb (Ascii.eqb c ch_quote)); [discriminate H|].
  destruct (read_string s1) as [[k [|colon s2]]|]; try discriminate H.
  destruct (negb (Ascii.eqb colon ":")); [discriminate H|].
  destruct (read_value s2) as [[v [|d s3]]|]; try discriminate H.
  destruct (Ascii.eqb d ","); [|exact H].
  destruct (read_members fuel s3) as [ms'|] eqn:E; [|discriminate H].
  rewrite (IH fuel' s3 ms' E); [exact H | lia].
Qed.

Lemma json_object_members fuel s1 ms :
  read_members fuel s1 = Some ms -> fuel <= String.length s1 ->
  json_object ("{" ++ s1) = Some ms.
Proof.
  intros H Hle. cbn [append json_object Ascii.eqb Bool.eqb negb].
  destruct (String.eqb_spec s1 "}") as [->|_].
  - destruct fuel; discriminate H.
  - exact (read_members_more_fuel fuel _ s1 ms H Hle).
Qed.

(** A member whose value is a number, followed by a comma. *)
Lemma read_members_number fuel name n rest ms :
  all_chars plain name = true ->
  read_members fuel rest = Some ms ->
  read_members (S fuel) (key name ++ dec n ++ "," ++ rest) =
  Some ((name, JNum n) :: ms).
Proof.
  intros Hname Hrest. unfold key, quoted, str1.
  cbn [read_members append Ascii.eqb Bool.eqb negb].
  rewrite !append_assoc_r, Ascii.eqb_refl. cbn [append negb].
  rewrite (read_string_plain name _ Hname).
  cbn [append Ascii.eqb Bool.eqb negb].
  rewrite read_value_dec by reflexivity.
  cbn [Ascii.eqb Bool.eqb]. rewrite Hrest. reflexivity.
Qed.

(** A member whose value is a string, followed by a comma; [body] is the
    text between the quotes and [v] what it reads as. *)
Lemma read_members_string fuel name body v rest ms :
  all_chars plain name = true ->
  (forall tail, read_string (body ++ String ch_quote tail) = Some (v, tail)) ->
  read_members fuel rest = Some ms ->
  read_members (S fuel)
    (key name ++ str1 ch_quote ++ body ++ str1 ch_quote ++ "," ++ rest) =
  Some ((name, JStr v) :: ms).
Proof.
  intros Hname Hbody Hrest. unfold key, quoted, str1.
  cbn [read_members append Ascii.eqb Bool.eqb negb].
  rewrite !append_assoc_r, Ascii.eqb_refl. cbn [append negb].
  rewrite (read_string_plain name _ Hname).
  cbn [append Ascii.eqb Bool.eqb negb read_value].
  rewrite Hbody, Ascii.eqb_refl. cbn [Ascii.eqb Bool.eqb].
  rewrite Hrest. reflexivity.
Qed.

(** The last member, a string, and the closing brace. *)
Lemma read_members_last_string fuel name body v :
  all_chars plain name = true ->
  (forall tail, read_string (body ++ String ch_quote tail) = Some (v, tail)) ->
  read_members (S fuel)
    (key name ++ str1 ch_quote ++ body ++ str1 ch_quote ++ "}") =
  Some [(name, JStr v)].
Proof.
  intros Hname Hbody. unfold key, quoted, str1.
  cbn [read_members append Ascii.eqb Bool.eqb negb].
  rewrite !append_assoc_r, Ascii.eqb_refl. cbn [append negb].
  rewrite (read_string_plain name _ Hname).
  cbn [append Ascii.eqb Bool.eqb negb read_value].
  rewrite Hbody, Ascii.eqb_refl. reflexivity.
Qed.

End ObjectFacts.

Section RoundTrip.

Lemma length_append a b :
  String.length (a ++ b) = String.length a + String.length b.
Proof. induction a; simpl; congruence. Qed.

(** The members the reader finds in the payload of [src/lib/logger.cpp],
    for a message that needs no escape. *)
Lemma lib_payload_members entry message :
  all_chars plain message = true ->
  json_object (Lib.payload entry message) =
  Some [("timestamp", JNum (e_timestamp entry));
        ("type", JStr (to_string_type (e_type entry)));
        ("severity", JStr (to_string_sev (e_sev entry)));
        ("activity_uuid", JNum (e_activity_uuid entry));
        ("seq_id", JNum (e_seq_id entry));
        ("parent_uuid", JNum (e_parent_uuid entry));
        ("message", JStr message)].
Proof.
  intro Hm. unfold Lib.payload.
  apply (json_object_members 7).
  - apply read_members_number; [reflexivity|].
    apply read_members_string;
      [reflexivity
      |intro; apply read_string_plain, to_string_type_plain|].
    apply read_members_string;
      [reflexivity
      |intro; apply read_string_plain, to_string_sev_plain|].
    apply read_members_number; [reflexivity|].
    apply read_members_number; [reflexivity|].
    apply read_members_number; [reflexivity|].
    apply read_members_last_string;
      [reflexivity | intro; apply read_string_plain, Hm].
  - rewrite length_append.
    change (String.length (key "timestamp")) with 12. lia.
Qed.

(** The members the reader finds in the payload of the revision with
    [escape_json], for a message that function is complete for. *)
Lemma part001_payload_members entry message :
  all_chars escapable message = true ->
  json_object (Part001.payload entry message) =
  Some [("timestamp", JNum (e_timestamp entry));
        ("type", JStr (to_string_type (e_type entry)));
        ("severity", JStr (to_string_sev (e_sev entry)));
        ("activity_uuid", JStr (dec (e_activity_uuid entry)));
        ("seq_id", JNum (e_seq_id entry));
        ("parent_uuid", JStr (dec (e_parent_uuid entry)));
        ("message", JStr message)].
Proof.
  intro Hm. unfold Part001.payload.
  assert (Hdec : forall n tail,
             read_string (dec n ++ String ch_quote tail) = Some (dec n, tail)).
  { intros n tail. apply read_string_plain.
    pose proof (dec_digits n) as Hd.
    induction (dec n) as [|c ds IH]; [reflexivity|].
    cbn [all_chars] in *. apply andb_true_iff in Hd as [Hc Hds].
    rewrite (IH Hds), andb_true_r. clear IH Hds.
    unfold is_digit in Hc. unfold plain, is_control.
    apply andb_true_iff in Hc as [Hlo Hhi].
    apply N.leb_le in Hlo, Hhi.
    destruct (N.ltb_spec (N_of_ascii c) 32) as [Hlt|_]; [lia|].
    destruct (Ascii.eqb_spec c ch_quote) as [->|_];
      [change (N_of_ascii ch_quote) with 34%N in Hlo; lia|].
    destruct (Ascii.eqb_spec c ch_slash) as [->|_];
      [change (N_of_ascii ch_slash) with 92%N in Hhi; lia|].
    reflexivity. }
  apply (json_object_members 7).
  - apply read_members_number; [reflexivity|].
    apply read_members_string;
      [reflexivity
      |intro; apply read_string_plain, to_string_type_plain|].
    apply read_members_string;
      [reflexivity
      |intro; apply read_string_plain, to_string_sev_plain|].
    apply read_members_string; [reflexivity | intro; apply Hdec|].
    apply read_members_number; [reflexivity|].
    apply read_members_string; [reflexivity | intro; apply Hdec|].
    apply read_members_last_string;
      [reflexivity | intro; apply read_string_escape_json, Hm].
  - rewrite length_append.
    change (String.length (key "timestamp")) with 12. lia.
Qed.

(** Decoding the payload of [src/lib/logger.cpp] gives back the seven
    fields when the message needs no escape. *)
Lemma lib_payload_reads_back entry message :
  all_chars plain message = true ->
  decode_entry (Lib.payload entry message) = Some (wire_of entry message).
Proof.
  intro Hm. unfold decode_entry.
  rewrite (lib_payload_members entry message Hm).
  cbn [member String.eqb Ascii.eqb Bool.eqb as_number as_string
       as_identifier].
  now rewrite type_of_to_string, sev_of_to_string.
Qed.

(** Decoding the payload of the revision with [escape_json] gives back the
    seven fields when the message has no control character outside the
    five that function has a case for. *)
Lemma part001_payload_reads_back entry message :
  all_chars escapable message = true ->
  decode_entry (Part001.payload entry message) = Some (wire_of entry message).
Proof.
  intro Hm. unfold decode_entry.
  rewrite (part001_payload_members entry message Hm).
  cbn [member String.eqb Ascii.eqb Bool.eqb as_number as_string
       as_identifier].
  now rewrite !read_number_dec_alone, type_of_to_string, sev_of_to_string.
Qed.

End RoundTrip.

Section Publishers.

Lemma append_cancel_l a x y : a ++ x = a ++ y -> x = y.
Proof.
  induction a as [|c a IH]; simpl; intro H; [exact H|].
  injection H as H. auto.
Qed.

(** Whatever the entry and the message, the two revisions write different
    bytes: after the key [activity_uuid] one has a digit where the other
    has a double quote. *)
Lemma payloads_never_equal entry message :
  Lib.payload entry message <> Part001.payload entry message.
Proof.
  unfold Lib.payload, Part001.payload. intro H.
  repeat (apply append_cancel_l in H).
  destruct (dec_head (e_activity_uuid entry)) as (c & ds & E & Hc & _).
  rewrite E in H. cbn [append str1] in H. injection H as -> _.
  discriminate Hc.
Qed.

End Publishers.

(** C4, evaluated. In [src/lib/logger.cpp] the message goes into the payload
    as it is: a double quote in it ends the JSON string early and the payload
    is not a JSON object. In the revision with [escape_json] a control
    character without a case of its own, here the byte 1, is copied raw, and
    the payload is not a JSON object either. *)
Theorem publisher_leaves_characters_raw :
  let entry := mk_entry INFO MID 77 12345 1 0 0 1 in
  Lib.payload entry (str1 ch_quote) =
    "{" ++ quoted "timestamp" ++ ":77," ++ quoted "type" ++ ":"
    ++ quoted "INFO" ++ "," ++ quoted "severity" ++ ":" ++ quoted "MID"
    ++ "," ++ quoted "activity_uuid" ++ ":12345," ++ quoted "seq_id"
    ++ ":1," ++ quoted "parent_uuid" ++ ":0," ++ quoted "message" ++ ":"
    ++ quoted (str1 ch_quote) ++ "}" /\
  json_object (Lib.payload entry (str1 ch_quote)) = None /\
  json_object (Lib.payload entry (str1 ch_nl)) = None /\
  is_control ch_soh = true /\
  Part001.escape_json (str1 ch_soh) = str1 ch_soh /\
  json_object (Part001.payload entry (str1 ch_soh)) = None.
Proof. vm_compute. repeat split. Qed.

(** C8, evaluated. The message of three bytes, a double quote, a backslash
    and a line feed, does not come back from the payload of
    [src/lib/logger.cpp], which no reader of JSON accepts; it does come back
    from the payload of the revision with [escape_json]. That revision loses
    the entry when the message holds the byte 1. *)
Theorem payload_round_trip_breaks :
  let message := String ch_quote (String ch_slash (str1 ch_nl)) in
  let entry := mk_entry INFO MID 77 12345 1 0 0 3 in
  decode_entry (Lib.payload entry message) = None /\
  decode_entry (Part001.payload entry message) = Some (wire_of entry message) /\
  decode_entry (Part001.payload entry (str1 ch_soh)) = None.
Proof. vm_compute. repeat split. Qed.

(** C9, where the statement fails: the two payloads of the scenario's entry
    differ. *)
Lemma publishers_differ_on_scenario :
  let entry := mk_entry INFO MID 77 12345 1 0 0 25 in
  Lib.payload entry scenario_message = scenario_payload 77 /\
  Part001.payload entry scenario_message = scenario_payload_quoted_ids 77 /\
  Lib.payload entry scenario_message <> Part001.payload entry scenario_message.
Proof. vm_compute. repeat split. discriminate. Qed.

(** C9. For every entry and every message without a double quote, a
    backslash or a control character, the payloads of the two revisions
    decode to the same seven fields, those of the entry and the message. The
    bytes are never the same: the revision with [escape_json] writes
    [activity_uuid] and [parent_uuid] between double quotes. *)
Theorem publishers_agree_after_decoding :
  forall (entry : log_entry_t) (message : string),
    all_chars plain message = true ->
    decode_entry (Lib.payload entry message) = Some (wire_of entry message) /\
    decode_entry (Part001.payload entry message) =
      decode_entry (Lib.payload entry message) /\
    Part001.escape_json message = message /\
    Lib.payload entry message <> Part001.payload entry message.
Proof.
  intros entry message Hm.
  rewrite (lib_payload_reads_back entry message Hm).
  rewrite (part001_payload_reads_back entry message (plain_escapable _ Hm)).
  repeat split.
  - exact (escape_json_plain message Hm).
  - apply payloads_never_equal.
Qed.

Lemma publishers_agree_after_decoding_witness :
  let entry := mk_entry INFO MID 77 12345 1 0 0 25 in
  decode_entry (Lib.payload entry scenario_message) =
    Some (wire_of entry scenario_message) /\
  decode_entry (Part001.payload entry scenario_message) =
    decode_entry (Lib.payload entry scenario_message) /\
  Part001.escape_json scenario_message = scenario_message /\
  Lib.payload entry scenario_message <> Part001.payload entry scenario_message.
Proof.
  apply (publishers_agree_after_decoding
           (mk_entry INFO MID 77 12345 1 0 0 25) scenario_message).
  vm_compute. reflexivity.
Defined.

(* ================================================================== *)
(** * More on the sequencer: what a run writes, sends and reports *)

Section RunFacts.

Variable payload_of : log_entry_t -> string -> string.

(** One call, in closed form. *)
Lemma do_call_closed_form c lg w :
  do_call payload_of c (lg, w) =
  let seq := incr64 (seq_id lg) in
  let entry := entry_of_call seq c in
  let writes := match logFilePath lg with Some _ => true | None => false end in
  let sends := match udsPath lg with Some _ => true | None => false end in
  let ret := sendto (udsSock lg) (c_env c) in
  (mk_Logger (logFilePath lg) (udsPath lg)
     (if writes && of_is_open (logFileStream lg)
      then stream_insert (fs_line entry (c_message c))
             (env_write_ok (c_env c)) (logFileStream lg)
      else logFileStream lg)
     (udsSock lg) seq,
   mk_World
     (w_cerr w
      ++ (if writes && negb (of_is_open (logFileStream lg))
          then ["Log file not open!"] else [])
      ++ (if sends && (ret <? 0)%Z
          then [("notifySubscribers: Failed to send payload: "
                 ++ env_strerror (c_env c))%string]
          else []))%list
     (w_sendto w
      ++ (if sends then [mk_sendto (payload_of entry (c_message c)) ret]
          else []))%list
     (w_entries w ++ [entry])%list).
Proof.
  unfold do_call, log_with, writeToFS, writeToWS_with, put_cerr, entry_of_call.
  destruct lg as [lfp uds [isopen bad file] sock sq]. cbn.
  destruct lfp as [p|]; destruct uds as [u|]; cbn;
    destruct isopen; cbn;
    try destruct (sendto sock (c_env c) <? 0)%Z; cbn;
    rewrite ?List.app_nil_r, <- ?List.app_assoc; reflexivity.
Qed.

(** A run never touches the configuration of the logger. *)
Lemma run_calls_config cs : forall lg w,
  let lg' := fst (run_calls payload_of cs (lg, w)) in
  logFilePath lg' = logFilePath lg /\ udsPath lg' = udsPath lg /\
  udsSock lg' = udsSock lg /\
  of_is_open (logFileStream lg') = of_is_open (logFileStream lg).
Proof.
  induction cs as [|c cs IH]; intros lg w; [repeat split|].
  cbn [run_calls]. rewrite do_call_closed_form. cbv zeta.
  match goal with |- context [run_calls _ _ (?l, ?x)] =>
    destruct (IH l x) as (H1 & H2 & H3 & H4) end.
  cbv zeta in *. rewrite H1, H2, H3, H4. cbn [logFilePath udsPath udsSock
    logFileStream]. repeat split.
  destruct (logFilePath lg); cbn [andb]; [|reflexivity].
  destruct (of_is_open (logFileStream lg)) eqn:E; [|exact E].
  unfold stream_insert.
  destruct (of_bad (logFileStream lg)); [exact E|].
  destruct (env_write_ok (c_env c)); cbn; exact E.
Qed.

Lemma run_calls_entries cs : forall lg w,
  w_entries (snd (run_calls payload_of cs (lg, w))) =
  (w_entries w ++ entries_from (seq_id lg) cs)%list.
Proof.
  induction cs as [|c cs IH]; intros lg w.
  - cbn. now rewrite List.app_nil_r.
  - cbn [run_calls entries_from]. rewrite do_call_closed_form. cbv zeta.
    rewrite IH. cbn [w_entries seq_id]. now rewrite <- List.app_assoc.
Qed.

Lemma run_calls_sendto cs : forall lg w,
  w_sendto (snd (run_calls payload_of cs (lg, w))) =
  (w_sendto w ++
   match udsPath lg with
   | Some _ => sendto_calls_from payload_of (udsSock lg) (seq_id lg) cs
   | None => []
   end)%list.
Proof.
  induction cs as [|c cs IH]; intros lg w.
  - cbn. destruct (udsPath lg); now rewrite List.app_nil_r.
  - cbn [run_calls sendto_calls_from]. rewrite do_call_closed_form. cbv zeta.
    rewrite IH. cbn [w_sendto seq_id udsPath udsSock].
    destruct (udsPath lg); cbn [andb]; rewrite <- List.app_assoc; reflexivity.
Qed.

(** A stream that takes nothing: not open, or with its error state set. *)
Lemma run_calls_dead_stream cs : forall lg w,
  logFilePath lg = None \/ of_is_open (logFileStream lg) = false \/
  of_bad (logFileStream lg) = true ->
  logFileStream (fst (run_calls payload_of cs (lg, w))) = logFileStream lg.
Proof.
  induction cs as [|c cs IH]; intros lg w H; [reflexivity|].
  cbn [run_calls]. rewrite do_call_closed_form. cbv zeta.
  assert (E : (if match logFilePath lg with Some _ => true | None => false end
                  && of_is_open (logFileStream lg)
               then stream_insert (fs_line (entry_of_call (incr64 (seq_id lg)) c)
                                     (c_message c))
                      (env_write_ok (c_env c)) (logFileStream lg)
               else logFileStream lg) = logFileStream lg).
  { destruct H as [H|[H|H]].
    - now rewrite H.
    - rewrite H. now rewrite andb_false_r.
    - unfold stream_insert. rewrite H. now destruct (_ && _). }
  rewrite E. rewrite IH; [reflexivity|]. cbn [logFilePath logFileStream]. exact H.
Qed.

(** An open stream in good state takes the lines of the calls up to the
    first refused write. *)
Lemma run_calls_file cs : forall lg w p,
  logFilePath lg = Some p ->
  of_is_open (logFileStream lg) = true ->
  of_bad (logFileStream lg) = false ->
  of_file (logFileStream (fst (run_calls payload_of cs (lg, w)))) =
  of_file (logFileStream lg) ++ file_lines (seq_id lg) (written_calls cs).
Proof.
  induction cs as [|c cs IH]; intros lg w p Hp Hopen Hgood.
  - cbn. now rewrite append_empty_r.
  - cbn [run_calls written_calls]. rewrite do_call_closed_form. cbv zeta.
    rewrite Hp, Hopen. cbn [andb]. unfold stream_insert. rewrite Hgood, Hopen.
    destruct (env_write_ok (c_env c)).
    + rewrite (IH _ _ p); try reflexivity.
      cbn [logFileStream of_file seq_id file_lines].
      now rewrite append_assoc_r.
    + rewrite run_calls_dead_stream by (right; right; reflexivity).
      cbn. now rewrite append_empty_r.
Qed.

Lemma written_calls_all cs :
  Forall (fun c => env_write_ok (c_env c) = true) cs -> written_calls cs = cs.
Proof.
  induction 1 as [|c cs Hc _ IH]; [reflexivity|].
  cbn. now rewrite Hc, IH.
Qed.

Lemma run_calls_cerr cs : forall lg w,
  w_cerr (snd (run_calls payload_of cs (lg, w))) =
  (w_cerr w ++
   flat_map
     (fun c =>
        (if match logFilePath lg with Some _ => true | None => false end
            && negb (of_is_open (logFileStream lg))
         then ["Log file not open!"] else [])
        ++ (if match udsPath lg with Some _ => true | None => false end
               && (sendto (udsSock lg) (c_env c) <? 0)%Z
            then [("notifySubscribers: Failed to send payload: "
                   ++ env_strerror (c_env c))%string]
            else [])) cs)%list.
Proof.
  induction cs as [|c cs IH]; intros lg w.
  - cbn. now rewrite List.app_nil_r.
  - cbn [run_calls flat_map]. rewrite do_call_closed_form. cbv zeta.
    rewrite IH. cbn [w_cerr logFilePath udsPath udsSock logFileStream].
    rewrite <- !List.app_assoc. do 3 f_equal.
    apply List.flat_map_ext. intro c'. do 2 f_equal.
    destruct (logFilePath lg); cbn [andb]; [|reflexivity].
    destruct (of_is_open (logFileStream lg)) eqn:E; cbn [andb negb];
      [|now rewrite E].
    unfold stream_insert.
    destruct (of_bad (logFileStream lg)); [now rewrite E|].
    destruct (env_write_ok (c_env c)); cbn; now rewrite E.
Qed.

End RunFacts.

Section RunTheorems.

Local Open Scope list_scope.

Lemma entries_from_fields cs : forall counter,
  map (fun e => (e_type e, e_sev e, e_timestamp e, e_activity_uuid e,
                 e_parent_uuid e)) (entries_from counter cs) =
  map (fun c => (c_type c, c_sev c, env_now (c_env c), c_activity_uuid c,
                 c_parent_uuid c)) cs.
Proof.
  induction cs as [|c cs IH]; intro counter; [reflexivity|].
  cbn [entries_from map]. now rewrite IH.
Qed.

Lemma entries_from_timestamps cs : forall counter,
  map e_timestamp (entries_from counter cs) =
  map (fun c => env_now (c_env c)) cs.
Proof.
  induction cs as [|c cs IH]; intro counter; [reflexivity|].
  cbn [entries_from map]. now rewrite IH.
Qed.

Lemma sendto_calls_from_results payload_of sock cs : forall counter,
  map st_ret (sendto_calls_from payload_of sock counter cs) =
  map (fun c => sendto sock (c_env c)) cs.
Proof.
  induction cs as [|c cs IH]; intro counter; [reflexivity|].
  cbn [sendto_calls_from map st_ret]. now rewrite IH.
Qed.

Lemma flat_map_constant {A B : Type} (x : B) (l : list A) :
  flat_map (fun _ => [x]) l = repeat x (List.length l).
Proof. induction l as [|a l IH]; [reflexivity|]. cbn. now rewrite IH. Qed.

Lemma flat_map_nothing {A B : Type} (l : list A) :
  flat_map (fun _ => @nil B) l = [].
Proof. induction l as [|a l IH]; [reflexivity|]. exact IH. Qed.

Lemma flat_map_singleton {A B : Type} (f : A -> B) (l : list A) :
  flat_map (fun a => [f a]) l = map f l.
Proof. induction l as [|a l IH]; [reflexivity|]. cbn. now rewrite IH. Qed.

End RunTheorems.

(** X1. Every call of [log] adds exactly one entry to the history, in the
    order of the calls; the entry carries the caller's type, severity,
    activity and parent identifiers and the clock reading of that call
    unchanged, whatever the sinks are and do. *)
Theorem entries_carry_the_calls_in_order :
  forall (payload_of : log_entry_t -> string -> string)
         (cs : list call) (lg : Logger) (w : World),
    w_entries (snd (run_calls payload_of cs (lg, w))) =
      (w_entries w ++ entries_from (seq_id lg) cs)%list /\
    List.length (entries_from (seq_id lg) cs) = List.length cs /\
    map (fun e => (e_type e, e_sev e, e_timestamp e, e_activity_uuid e,
                   e_parent_uuid e)) (entries_from (seq_id lg) cs) =
    map (fun c => (c_type c, c_sev c, env_now (c_env c), c_activity_uuid c,
                   c_parent_uuid c)) cs.
Proof.
  intros payload_of cs lg w. split; [apply run_calls_entries|].
  split; [|apply entries_from_fields].
  rewrite <- (List.length_map e_timestamp), entries_from_timestamps.
  apply List.length_map.
Qed.

(** X2. When the steady clock does not go back between the calls, the
    timestamps of the entries do not go back in the order of their sequence
    numbers: the clock is read inside the call that takes the number. *)
Theorem timestamps_follow_the_clock :
  forall (payload_of : log_entry_t -> string -> string)
         (cs : list call) (lfp uds : option string) (cenv : ctor_env),
    StronglySorted N.le (map (fun c => env_now (c_env c)) cs) ->
    StronglySorted N.le
      (map e_timestamp
         (w_entries
            (snd (run_calls payload_of cs
                    (Logger_new lfp uds cenv empty_world))))).
Proof.
  intros payload_of cs lfp uds cenv Hclock.
  destruct (Logger_new_fresh lfp uds cenv empty_world) as [_ Hnone].
  destruct (Logger_new lfp uds cenv empty_world) as [lg w].
  cbn [snd] in Hnone. rewrite run_calls_entries, Hnone.
  cbn [w_entries empty_world app]. now rewrite entries_from_timestamps.
Qed.

Lemma timestamps_follow_the_clock_witness :
  StronglySorted N.le
    (map e_timestamp
       (w_entries
          (snd (run_calls Lib.payload
                  [mk_call (quiet_env 5) INFO MID "a" 1 0;
                   mk_call (quiet_env 5) OK LOW "b" 1 0;
                   mk_call (quiet_env 9) PANIC HIGH "c" 2 1]
                  (Logger_new (Some "/tmp/a.0") (Some "/tmp/b.0")
                     both_sinks_env empty_world))))).
Proof.
  apply (timestamps_follow_the_clock Lib.payload).
  cbn. repeat constructor; discriminate.
Defined.

(** X3. On a logger whose file was opened, a run appends to what the file
    held the lines of its calls, in counter order, up to the first call whose
    write the system refuses, and nothing after that; when every write is
    accepted that is one line per call. *)
Theorem file_holds_the_lines_up_to_the_first_refused_write :
  forall (payload_of : log_entry_t -> string -> string)
         (cs : list call) (p : string) (uds : option string) (cenv : ctor_env),
    open_ok cenv = true ->
    let after :=
      run_calls payload_of cs (Logger_new (Some p) uds cenv empty_world) in
    of_file (logFileStream (fst after)) =
      existing cenv ++ file_lines 0 (written_calls cs) /\
    (Forall (fun c => env_write_ok (c_env c) = true) cs ->
     of_file (logFileStream (fst after)) = existing cenv ++ file_lines 0 cs).
Proof.
  intros payload_of cs p uds cenv Hok after. subst after.
  assert (H : of_file
                (logFileStream
                   (fst (run_calls payload_of cs
                           (Logger_new (Some p) uds cenv empty_world)))) =
              existing cenv ++ file_lines 0 (written_calls cs)).
  { unfold Logger_new. rewrite Hok.
    destruct uds as [u|]; [destruct (socket_ret cenv <? 0)%Z|];
      rewrite (run_calls_file payload_of cs _ _ p); reflexivity. }
  split; [exact H|]. intro Hall. now rewrite H, written_calls_all.
Qed.

Lemma file_holds_the_lines_up_to_the_first_refused_write_witness :
  let ok := mk_call (quiet_env 5) INFO MID "a" 1 0 in
  let refused := mk_call (mk_env 6 false 0 EmptyString) ERROR HIGH "b" 2 1 in
  of_file
    (logFileStream
       (fst (run_calls Lib.payload [ok; refused; ok]
               (Logger_new (Some "/tmp/a.0") None both_sinks_env
                  empty_world)))) =
  "[INFO], {MID}, Activity: 1 Seq: 1 Parent: 0 -- a" ++ str1 ch_nl.
Proof.
  intros ok refused.
  destruct (file_holds_the_lines_up_to_the_first_refused_write Lib.payload
              [ok; refused; ok] "/tmp/a.0" None both_sinks_env eq_refl)
    as [H _].
  rewrite H. reflexivity.
Defined.

(** X4. When the file could not be opened, the constructor reports it once;
    after that every call of [log] prints [Log file not open!] and the file
    is never written. *)
Theorem unopened_file_is_reported_on_every_call :
  forall (payload_of : log_entry_t -> string -> string)
         (cs : list call) (p : string) (cenv : ctor_env),
    open_ok cenv = false ->
    let after :=
      run_calls payload_of cs (Logger_new (Some p) None cenv empty_world) in
    w_cerr (snd after) =
      (("Failed to open log file: " ++ std_quoted p)%string
       :: repeat "Log file not open!"%string (List.length cs))%list /\
    of_file (logFileStream (fst after)) = EmptyString /\
    w_sendto (snd after) = [].
Proof.
  intros payload_of cs p cenv Hfail after. subst after.
  unfold Logger_new. rewrite Hfail.
  rewrite run_calls_cerr, run_calls_sendto, run_calls_dead_stream
    by (right; left; reflexivity).
  cbn. rewrite flat_map_constant. repeat split.
Qed.

Lemma unopened_file_is_reported_on_every_call_witness :
  w_cerr
    (snd (run_calls Lib.payload
            [mk_call (quiet_env 5) INFO MID "a" 1 0;
             mk_call (quiet_env 6) INFO MID "b" 1 0]
            (Logger_new (Some "/nowhere/a.0") None
               (mk_ctor_env false EmptyString 3 EmptyString) empty_world))) =
  [("Failed to open log file: " ++ std_quoted "/nowhere/a.0")%string;
   "Log file not open!"%string; "Log file not open!"%string].
Proof.
  apply (unopened_file_is_reported_on_every_call Lib.payload
           [mk_call (quiet_env 5) INFO MID "a" 1 0;
            mk_call (quiet_env 6) INFO MID "b" 1 0]
           "/nowhere/a.0" (mk_ctor_env false EmptyString 3 EmptyString)).
  reflexivity.
Defined.

(** X5. Once a write was refused on the open stream, its error state stays
    set: no later call of [log] writes to the file, and the file sink prints
    nothing about it. *)
Theorem refused_write_silences_the_file_sink :
  forall (payload_of : log_entry_t -> string -> string)
         (cs : list call) (lg : Logger) (w : World),
    of_is_open (logFileStream lg) = true ->
    of_bad (logFileStream lg) = true ->
    let after := run_calls payload_of cs (lg, w) in
    logFileStream (fst after) = logFileStream lg /\
    (udsPath lg = None -> w_cerr (snd after) = w_cerr w).
Proof.
  intros payload_of cs lg w Hopen Hbad after. subst after. split.
  - apply run_calls_dead_stream. right; right; exact Hbad.
  - intro Hnone. rewrite run_calls_cerr, Hnone, Hopen. cbn [negb andb].
    rewrite andb_false_r. cbn [app]. rewrite flat_map_nothing.
    apply List.app_nil_r.
Qed.

Lemma refused_write_silences_the_file_sink_witness :
  let refused := mk_call (mk_env 6 false 0 EmptyString) ERROR HIGH "b" 2 1 in
  let ok := mk_call (quiet_env 7) INFO MID "a" 1 0 in
  let broken :=
    run_calls Lib.payload [refused]
      (Logger_new (Some "/tmp/a.0") None both_sinks_env empty_world) in
  let after := run_calls Lib.payload [ok; ok] broken in
  logFileStream (fst after) = logFileStream (fst broken) /\
  (udsPath (fst broken) = None -> w_cerr (snd after) = w_cerr (snd broken)).
Proof.
  intros refused ok broken after.
  apply (refused_write_silences_the_file_sink Lib.payload [ok; ok]
           (fst broken) (snd broken)); reflexivity.
Defined.

(** X6. With a relay address, every call of [log] makes exactly one call of
    [sendto], in counter order, with the payload of its own entry; a call
    that fails is not repeated. Without a relay address nothing is sent. *)
Theorem one_sendto_per_call_in_counter_order :
  forall (payload_of : log_entry_t -> string -> string)
         (cs : list call) (lg : Logger) (w : World),
    let after := run_calls payload_of cs (lg, w) in
    (forall u, udsPath lg = Some u ->
       w_sendto (snd after) =
         (w_sendto w
          ++ sendto_calls_from payload_of (udsSock lg) (seq_id lg) cs)%list /\
       List.length (w_sendto (snd after)) =
         List.length (w_sendto w) + List.length cs) /\
    (udsPath lg = None -> w_sendto (snd after) = w_sendto w).
Proof.
  intros payload_of cs lg w after. subst after. rewrite run_calls_sendto.
  split.
  - intros u ->. split; [reflexivity|].
    rewrite List.length_app. f_equal.
    rewrite <- (List.length_map st_ret), sendto_calls_from_results.
    apply List.length_map.
  - intros ->. apply List.app_nil_r.
Qed.

(** X7. A logger built without a file path and without a relay address only
    counts: a run prints nothing, sends nothing and leaves the stream closed,
    while the counter goes up by one per call. *)
Theorem logger_without_sinks_only_counts :
  forall (payload_of : log_entry_t -> string -> string)
         (cs : list call) (cenv : ctor_env),
    (N.of_nat (List.length cs) < uint64_modulus)%N ->
    let after := run_calls payload_of cs (Logger_new None None cenv empty_world) in
    w_cerr (snd after) = [] /\
    w_sendto (snd after) = [] /\
    logFileStream (fst after) = mk_ofstream false false EmptyString /\
    seq_id (fst after) = N.of_nat (List.length cs).
Proof.
  intros payload_of cs cenv Hbound after. subst after. unfold Logger_new.
  rewrite run_calls_cerr, run_calls_sendto, run_calls_dead_stream
    by (left; reflexivity).
  rewrite run_calls_counter by reflexivity.
  cbn. rewrite flat_map_nothing. repeat split.
  apply N.mod_small. exact Hbound.
Qed.

Lemma logger_without_sinks_only_counts_witness :
  let after :=
    run_calls Part001.payload
      [mk_call (quiet_env 5) INFO MID "a" 1 0;
       mk_call (mk_env 6 false (-1) "refused") ERROR HIGH "b" 2 1]
      (Logger_new None None both_sinks_env empty_world) in
  w_cerr (snd after) = [] /\
  w_sendto (snd after) = [] /\
  logFileStream (fst after) = mk_ofstream false false EmptyString /\
  seq_id (fst after) = 2%N.
Proof.
  apply (logger_without_sinks_only_counts Part001.payload
           [mk_call (quiet_env 5) INFO MID "a" 1 0;
            mk_call (mk_env 6 false (-1) "refused") ERROR HIGH "b" 2 1]
           both_sinks_env).
  vm_compute. reflexivity.
Defined.

(** X8. When [socket] failed in the constructor, the descriptor stays
    negative: the constructor reports it once, and every call of [log] still
    calls [sendto], gets -1 and prints one [Failed to send payload] line. *)
Theorem failed_socket_is_reported_on_every_call :
  forall (payload_of : log_entry_t -> string -> string)
         (cs : list call) (u : string) (cenv : ctor_env),
    (socket_ret cenv < 0)%Z ->
    let after :=
      run_calls payload_of cs (Logger_new None (Some u) cenv empty_world) in
    map st_ret (w_sendto (snd after)) = repeat (-1)%Z (List.length cs) /\
    w_cerr (snd after) =
      (("notifySubscribers: Failed to create socket: "
        ++ socket_strerror cenv)%string
       :: map (fun c => ("notifySubscribers: Failed to send payload: "
                         ++ env_strerror (c_env c))%string) cs)%list.
Proof.
  intros payload_of cs u cenv Hneg after. subst after. unfold Logger_new.
  apply Z.ltb_lt in Hneg. rewrite Hneg.
  rewrite run_calls_cerr, run_calls_sendto.
  cbn [udsPath udsSock logFilePath seq_id w_sendto w_cerr put_cerr
       empty_world app andb]. unfold sendto. rewrite Hneg. cbn [Z.ltb Z.compare].
  rewrite sendto_calls_from_results. split.
  - unfold sendto. rewrite Hneg. clear.
    induction cs as [|c cs IH]; [reflexivity|]. cbn. now rewrite IH.
  - cbn [app]. now rewrite flat_map_singleton.
Qed.

Lemma failed_socket_is_reported_on_every_call_witness :
  let after :=
    run_calls Lib.payload
      [mk_call (quiet_env 5) INFO MID "a" 1 0;
       mk_call (quiet_env 6) INFO MID "b" 1 0]
      (Logger_new None (Some "/tmp/b.0")
         (mk_ctor_env true EmptyString (-1) "EMFILE") empty_world) in
  map st_ret (w_sendto (snd after)) = [(-1)%Z; (-1)%Z] /\
  w_cerr (snd after) =
    ["notifySubscribers: Failed to create socket: EMFILE"%string;
     "notifySubscribers: Failed to send payload: "%string;
     "notifySubscribers: Failed to send payload: "%string].
Proof.
  apply (failed_socket_is_reported_on_every_call Lib.payload
           [mk_call (quiet_env 5) INFO MID "a" 1 0;
            mk_call (quiet_env 6) INFO MID "b" 1 0]
           "/tmp/b.0" (mk_ctor_env true EmptyString (-1) "EMFILE")).
  reflexivity.
Defined.

(* ================================================================== *)
(** * More on the texts: [escape_json], the payloads, the file line *)

Section TextFacts.

Lemma all_chars_app p a b :
  all_chars p (a ++ b) = (all_chars p a && all_chars p b)%bool.
Proof.
  induction a as [|c a IH]; [reflexivity|].
  cbn [append all_chars]. now rewrite IH, andb_assoc.
Qed.

Lemma all_chars_impl (p q : ascii -> bool) s :
  (forall c, p c = true -> q c = true) ->
  all_chars p s = true -> all_chars q s = true.
Proof.
  intro Hpq. induction s as [|c s IH]; [reflexivity|].
  cbn [all_chars]. intro H. apply andb_true_iff in H as [Hc Hs].
  now rewrite (Hpq c Hc), (IH Hs).
Qed.

Lemma digit_printable c : is_digit c = true -> printable c = true.
Proof.
  unfold is_digit, printable. intro H.
  apply andb_true_iff in H as [Hlo Hhi]. apply N.leb_le in Hlo, Hhi.
  apply andb_true_iff. split; [apply N.leb_le | apply N.ltb_lt]; lia.
Qed.

Lemma dec_printable n : all_chars printable (dec n) = true.
Proof. exact (all_chars_impl _ _ _ digit_printable (dec_digits n)). Qed.

Lemma to_string_type_printable t : all_chars printable (to_string_type t) = true.
Proof. destruct t; reflexivity. Qed.

Lemma to_string_sev_printable s : all_chars printable (to_string_sev s) = true.
Proof. destruct s; reflexivity. Qed.

Lemma occurrences_app x a b :
  occurrences x (a ++ b) = occurrences x a + occurrences x b.
Proof.
  induction a as [|c a IH]; [reflexivity|].
  cbn [append occurrences]. rewrite IH. lia.
Qed.

Lemma occurrences_none x s :
  all_chars (fun c => negb (Ascii.eqb c x)) s = true -> occurrences x s = 0.
Proof.
  induction s as [|c s IH]; [reflexivity|].
  cbn [all_chars occurrences]. intro H. apply andb_true_iff in H as [Hc Hs].
  apply negb_true_iff in Hc. now rewrite Hc, (IH Hs).
Qed.

Lemma printable_not_line_feed s :
  all_chars printable s = true -> occurrences ch_nl s = 0.
Proof.
  intro H. apply occurrences_none. revert H. apply all_chars_impl.
  intros c Hc. apply negb_true_iff.
  destruct (Ascii.eqb_spec c ch_nl) as [->|_]; [discriminate Hc | reflexivity].
Qed.

(** Case analysis on the [switch] of [escape_json]. *)
Ltac switch_on c :=
  destruct (Ascii.eqb_spec c ch_quote) as [?|?];
  [|destruct (Ascii.eqb_spec c ch_slash) as [?|?];
    [|destruct (Ascii.eqb_spec c ch_bs) as [?|?];
      [|destruct (Ascii.eqb_spec c ch_ff) as [?|?];
        [|destruct (Ascii.eqb_spec c ch_nl) as [?|?];
          [|destruct (Ascii.eqb_spec c ch_cr) as [?|?];
            [|destruct (Ascii.eqb_spec c ch_tab) as [?|?]]]]]]].

Lemma escape_json_app a b :
  Part001.escape_json (a ++ b) =
  Part001.escape_json a ++ Part001.escape_json b.
Proof.
  induction a as [|c a IH]; [reflexivity|].
  cbn [append Part001.escape_json]. now rewrite IH, append_assoc_r.
Qed.

Lemma escape_json_length s :
  String.length s <= String.length (Part001.escape_json s) <=
  2 * String.length s.
Proof.
  induction s as [|c s IH]; [cbn; lia|].
  cbn [Part001.escape_json]. rewrite length_append.
  switch_on c; cbn [String.length str1]; lia.
Qed.

Lemma escape_json_injective a : forall b,
  Part001.escape_json a = Part001.escape_json b -> a = b.
Proof.
  induction a as [|c a IH]; intros [|d b] H.
  - reflexivity.
  - exfalso. cbn [Part001.escape_json] in H.
    switch_on d; cbn [append str1] in H; discriminate H.
  - exfalso. cbn [Part001.escape_json] in H.
    switch_on c; cbn [append str1] in H; discriminate H.
  - cbn [Part001.escape_json] in H.
    switch_on c; switch_on d; subst;
      unfold ch_quote, ch_slash, ch_bs, ch_ff, ch_nl, ch_cr, ch_tab, str1
        in *;
      cbn [append] in H;
      try discriminate H;
      injection H; intros; subst;
      try congruence;
      f_equal; apply IH; assumption.
Qed.

Lemma escape_json_no_raw_break s :
  all_chars (fun c => negb (raw_break c)) (Part001.escape_json s) = true.
Proof.
  induction s as [|c s IH]; [reflexivity|].
  cbn [Part001.escape_json]. rewrite all_chars_app, IH, andb_true_r.
  switch_on c; subst; try reflexivity.
  cbn [str1 all_chars]. rewrite andb_true_r. unfold raw_break.
  repeat match goal with
         | H : c <> _ |- _ => apply Ascii.eqb_neq in H; rewrite H; clear H
         end.
  reflexivity.
Qed.

Lemma escape_json_keeps_not_nul s :
  all_chars not_nul s = true ->
  all_chars not_nul (Part001.escape_json s) = true.
Proof.
  induction s as [|c s IH]; [reflexivity|].
  cbn [all_chars Part001.escape_json]. intro H.
  apply andb_true_iff in H as [Hc Hs].
  rewrite all_chars_app, (IH Hs), andb_true_r.
  switch_on c; subst; try reflexivity.
  cbn [str1 all_chars]. now rewrite Hc.
Qed.

Lemma escapable_not_nul s :
  all_chars escapable s = true -> all_chars not_nul s = true.
Proof.
  apply all_chars_impl. intros c Hc. unfold not_nul. apply negb_true_iff.
  destruct (Ascii.eqb_spec c ch_nul) as [->|_]; [discriminate Hc | reflexivity].
Qed.

Lemma not_nul_c_str s : all_chars not_nul s = true -> c_str s = s.
Proof.
  induction s as [|c s IH]; [reflexivity|].
  cbn [all_chars c_str]. intro H. apply andb_true_iff in H as [Hc Hs].
  unfold not_nul in Hc. apply negb_true_iff in Hc. now rewrite Hc, (IH Hs).
Qed.

(** A property of characters that holds of the printable ones holds of the
    whole payload as soon as it holds of the message as written. *)
Lemma part001_payload_chars q entry message :
  (forall c, printable c = true -> q c = true) ->
  all_chars q (Part001.escape_json message) = true ->
  all_chars q (Part001.payload entry message) = true.
Proof.
  intros Hq Hm.
  assert (Hlit : forall s, all_chars printable s = true ->
                           all_chars q s = true)
    by (intro s; apply all_chars_impl; exact Hq).
  unfold Part001.payload. rewrite !all_chars_app, Hm.
  rewrite !(Hlit _ (dec_printable _)).
  rewrite (Hlit _ (to_string_type_printable _)).
  rewrite (Hlit _ (to_string_sev_printable _)).
  repeat (rewrite Hlit by reflexivity). reflexivity.
Qed.

Lemma lib_payload_chars q entry message :
  (forall c, printable c = true -> q c = true) ->
  all_chars q message = true ->
  all_chars q (Lib.payload entry message) = true.
Proof.
  intros Hq Hm.
  assert (Hlit : forall s, all_chars printable s = true ->
                           all_chars q s = true)
    by (intro s; apply all_chars_impl; exact Hq).
  unfold Lib.payload. rewrite !all_chars_app, Hm.
  rewrite !(Hlit _ (dec_printable _)).
  rewrite (Hlit _ (to_string_type_printable _)).
  rewrite (Hlit _ (to_string_sev_printable _)).
  repeat (rewrite Hlit by reflexivity). reflexivity.
Qed.

End TextFacts.

Section Integrity.

(** When the message holds a control character [escape_json] has no case
    for, what it writes is refused by the reader, whatever follows. *)
Lemma read_string_escape_json_refused message : forall rest,
  all_chars escapable message = false ->
  read_string (Part001.escape_json message ++ rest) = None.
Proof.
  induction message as [|c message IH]; intros rest H; [discriminate H|].
  cbn [all_chars] in H. cbn [Part001.escape_json]. rewrite append_assoc_r.
  destruct (Ascii.eqb_spec c ch_quote) as [->|Hq];
    [cbn in *; now rewrite IH|].
  destruct (Ascii.eqb_spec c ch_slash) as [->|Hs];
    [cbn in *; now rewrite IH|].
  destruct (Ascii.eqb_spec c ch_bs) as [->|Hb];
    [cbn in *; now rewrite IH|].
  destruct (Ascii.eqb_spec c ch_ff) as [->|Hf];
    [cbn in *; now rewrite IH|].
  destruct (Ascii.eqb_spec c ch_nl) as [->|Hn];
    [cbn in *; now rewrite IH|].
  destruct (Ascii.eqb_spec c ch_cr) as [->|Hr];
    [cbn in *; now rewrite IH|].
  destruct (Ascii.eqb_spec c ch_tab) as [->|Ht];
    [cbn in *; now rewrite IH|].
  apply Ascii.eqb_neq in Hq, Hs.
  cbn [str1 append read_string]. rewrite Hq, Hs.
  destruct (is_control c) eqn:Hctl; [reflexivity|].
  unfold escapable in H. rewrite Hctl in H. cbn [negb orb] in H.
  now rewrite IH.
Qed.

(** The members, read one at a time. *)
Lemma read_members_number_step fuel name n rest :
  all_chars plain name = true ->
  read_members (S fuel) (key name ++ dec n ++ "," ++ rest) =
  match read_members fuel rest with
  | Some ms => Some ((name, JNum n) :: ms)
  | None => None
  end.
Proof.
  intro Hname. unfold key, quoted, str1.
  cbn [read_members append Ascii.eqb Bool.eqb negb].
  rewrite !append_assoc_r, Ascii.eqb_refl. cbn [append negb].
  rewrite (read_string_plain name _ Hname).
  cbn [append Ascii.eqb Bool.eqb negb].
  rewrite read_value_dec by reflexivity.
  reflexivity.
Qed.

Lemma read_members_string_step fuel name body v rest :
  all_chars plain name = true ->
  (forall tail, read_string (body ++ String ch_quote tail) = Some (v, tail)) ->
  read_members (S fuel)
    (key name ++ str1 ch_quote ++ body ++ str1 ch_quote ++ "," ++ rest) =
  match read_members fuel rest with
  | Some ms => Some ((name, JStr v) :: ms)
  | None => None
  end.
Proof.
  intros Hname Hbody. unfold key, quoted, str1.
  cbn [read_members append Ascii.eqb Bool.eqb negb].
  rewrite !append_assoc_r, Ascii.eqb_refl. cbn [append negb].
  rewrite (read_string_plain name _ Hname).
  cbn [append Ascii.eqb Bool.eqb negb read_value].
  rewrite Hbody, Ascii.eqb_refl. reflexivity.
Qed.

Lemma read_members_last_refused fuel name body :
  all_chars plain name = true ->
  (forall tail, read_string (body ++ tail) = None) ->
  read_members fuel (key name ++ str1 ch_quote ++ body ++ str1 ch_quote ++ "}")
  = None.
Proof.
  intros Hname Hbody. destruct fuel as [|fuel]; [reflexivity|].
  unfold key, quoted, str1.
  cbn [read_members append Ascii.eqb Bool.eqb negb].
  rewrite !append_assoc_r, Ascii.eqb_refl. cbn [append negb].
  rewrite (read_string_plain name _ Hname).
  cbn [append Ascii.eqb Bool.eqb negb read_value].
  rewrite Hbody, Ascii.eqb_refl. reflexivity.
Qed.

Lemma digit_plain c : is_digit c = true -> plain c = true.
Proof.
  unfold is_digit, plain, is_control. intro H.
  apply andb_true_iff in H as [Hlo Hhi]. apply N.leb_le in Hlo, Hhi.
  destruct (N.ltb_spec (N_of_ascii c) 32) as [Hlt|_]; [lia|].
  destruct (Ascii.eqb_spec c ch_quote) as [->|_];
    [change (N_of_ascii ch_quote) with 34%N in Hlo; lia|].
  destruct (Ascii.eqb_spec c ch_slash) as [->|_];
    [change (N_of_ascii ch_slash) with 92%N in Hhi; lia|].
  reflexivity.
Qed.

Lemma dec_reads_as_string n tail :
  read_string (dec n ++ String ch_quote tail) = Some (dec n, tail).
Proof.
  apply read_string_plain.
  exact (all_chars_impl _ _ _ digit_plain (dec_digits n)).
Qed.

Lemma json_object_open s1 :
  s1 <> "}" -> json_object ("{" ++ s1) = read_members (String.length s1) s1.
Proof.
  intro H. cbn [append json_object Ascii.eqb Bool.eqb negb].
  destruct (String.eqb_spec s1 "}") as [E|_]; [contradiction | reflexivity].
Qed.

(** The payload of the revision with [escape_json], for a message that
    function is not complete for, is no JSON object. *)
Lemma part001_payload_refused entry message :
  all_chars escapable message = false ->
  json_object (Part001.payload entry message) = None.
Proof.
  intro Hbad. unfold Part001.payload.
  rewrite json_object_open
    by (unfold key, quoted; cbn [append]; discriminate).
  rewrite length_append. change (String.length (key "timestamp")) with 12.
  cbn [Nat.add].
  rewrite read_members_number_step by reflexivity.
  rewrite (read_members_string_step _ "type" _ (to_string_type (e_type entry)))
    by (try reflexivity; intro; apply read_string_plain, to_string_type_plain).
  rewrite (read_members_string_step _ "severity" _
             (to_string_sev (e_sev entry)))
    by (try reflexivity; intro; apply read_string_plain, to_string_sev_plain).
  rewrite (read_members_string_step _ "activity_uuid" _
             (dec (e_activity_uuid entry)))
    by (try reflexivity; intro; apply dec_reads_as_string).
  rewrite read_members_number_step by reflexivity.
  rewrite (read_members_string_step _ "parent_uuid" _
             (dec (e_parent_uuid entry)))
    by (try reflexivity; intro; apply dec_reads_as_string).
  rewrite read_members_last_refused;
    [reflexivity | reflexivity |].
  intro tail. now apply read_string_escape_json_refused.
Qed.

(** In [src/lib/logger.cpp] a message can close its own string and add a
    member: the reader then finds eight members. *)
Lemma lib_payload_forged_members entry shown hidden :
  all_chars plain shown = true ->
  all_chars plain hidden = true ->
  json_object
    (Lib.payload entry
       (shown ++ str1 ch_quote ++ "," ++ key "message" ++ str1 ch_quote
        ++ hidden)) =
  Some [("timestamp", JNum (e_timestamp entry));
        ("type", JStr (to_string_type (e_type entry)));
        ("severity", JStr (to_string_sev (e_sev entry)));
        ("activity_uuid", JNum (e_activity_uuid entry));
        ("seq_id", JNum (e_seq_id entry));
        ("parent_uuid", JNum (e_parent_uuid entry));
        ("message", JStr shown);
        ("message", JStr hidden)].
Proof.
  intros Hshown Hhidden. unfold Lib.payload.
  apply (json_object_members 8).
  - apply read_members_number; [reflexivity|].
    apply read_members_string;
      [reflexivity
      |intro; apply read_string_plain, to_string_type_plain|].
    apply read_members_string;
      [reflexivity
      |intro; apply read_string_plain, to_string_sev_plain|].
    apply read_members_number; [reflexivity|].
    apply read_members_number; [reflexivity|].
    apply read_members_number; [reflexivity|].
    rewrite !append_assoc_r.
    apply read_members_string;
      [reflexivity | intro; apply read_string_plain, Hshown|].
    apply read_members_last_string;
      [reflexivity | intro; apply read_string_plain, Hhidden].
  - rewrite length_append.
    change (String.length (key "timestamp")) with 12. lia.
Qed.

End Integrity.

(** X9. [escape_json] works character by character: the escaped text of a
    concatenation is the concatenation of the escaped texts, and it is at
    least as long as the message and at most twice as long. *)
Theorem escape_json_is_characterwise :
  forall a b : string,
    Part001.escape_json (a ++ b) =
      Part001.escape_json a ++ Part001.escape_json b /\
    String.length a <= String.length (Part001.escape_json a) /\
    String.length (Part001.escape_json a) <= 2 * String.length a.
Proof.
  intros a b. split; [apply escape_json_app|]. apply escape_json_length.
Qed.

(** X10. [escape_json] loses nothing: two messages with the same escaped
    text are the same message. *)
Theorem escape_json_loses_nothing :
  forall a b : string,
    Part001.escape_json a = Part001.escape_json b -> a = b.
Proof. intros a b. apply escape_json_injective. Qed.

Lemma escape_json_loses_nothing_witness :
  String ch_slash "n" = String ch_slash "n".
Proof.
  apply (escape_json_loses_nothing (String ch_slash "n") (String ch_slash "n")).
  reflexivity.
Defined.

(** X11. The payload of the revision with [escape_json] never holds a raw
    backspace, form feed, line feed, carriage return or tab, whatever the
    message: the datagram is one line of text. *)
Theorem part001_payload_is_one_line :
  forall (entry : log_entry_t) (message : string),
    all_chars (fun c => negb (raw_break c))
      (Part001.payload entry message) = true /\
    occurrences ch_nl (Part001.payload entry message) = 0.
Proof.
  intros entry message.
  assert (H : all_chars (fun c => negb (raw_break c))
                (Part001.payload entry message) = true).
  { apply part001_payload_chars; [|apply escape_json_no_raw_break].
    intros c Hc. unfold raw_break.
    destruct (Ascii.eqb_spec c ch_bs) as [->|_]; [discriminate Hc|].
    destruct (Ascii.eqb_spec c ch_ff) as [->|_]; [discriminate Hc|].
    destruct (Ascii.eqb_spec c ch_nl) as [->|_]; [discriminate Hc|].
    destruct (Ascii.eqb_spec c ch_cr) as [->|_]; [discriminate Hc|].
    destruct (Ascii.eqb_spec c ch_tab) as [->|_]; [discriminate Hc|].
    reflexivity. }
  split; [exact H|]. apply occurrences_none. revert H.
  apply all_chars_impl. intros c Hc. unfold raw_break in Hc.
  destruct (Ascii.eqb c ch_nl); [|reflexivity].
  rewrite !orb_true_r in Hc. discriminate Hc.
Qed.

(** X12. Decoding the payload of the revision with [escape_json] gives the
    seven fields of the entry and the message exactly when the message has no
    control character other than the five [escape_json] has a case for;
    otherwise the payload is refused. It never decodes to anything else. *)
Theorem part001_payload_decodes_to_the_entry_or_not_at_all :
  forall (entry : log_entry_t) (message : string),
    decode_entry (Part001.payload entry message) =
    if all_chars escapable message then Some (wire_of entry message) else None.
Proof.
  intros entry message. destruct (all_chars escapable message) eqn:E.
  - now apply part001_payload_reads_back.
  - unfold decode_entry. now rewrite part001_payload_refused.
Qed.

(** X14. The line [writeToFS] formats holds one line feed more than the
    message: a call adds as many lines to the file as the message has line
    feeds, plus one. *)
Theorem file_line_count_follows_the_message :
  forall (entry : log_entry_t) (message : string),
    occurrences ch_nl (fs_line entry message) =
    S (occurrences ch_nl message).
Proof.
  intros entry message. unfold fs_line. rewrite !occurrences_app.
  rewrite !(printable_not_line_feed _ (dec_printable _)).
  rewrite (printable_not_line_feed _ (to_string_type_printable _)).
  rewrite (printable_not_line_feed _ (to_string_sev_printable _)).
  cbn. lia.
Qed.

(** X15. [to_string] gives every type and every severity a name of its own,
    never [UNKNOWN], made of characters that need no escape in JSON. *)
Theorem to_string_names_are_distinct :
  (forall t1 t2, to_string_type t1 = to_string_type t2 -> t1 = t2) /\
  (forall s1 s2, to_string_sev s1 = to_string_sev s2 -> s1 = s2) /\
  (forall t, to_string_type t <> "UNKNOWN" /\
             all_chars plain (to_string_type t) = true) /\
  (forall s, to_string_sev s <> "UNKNOWN" /\
             all_chars plain (to_string_sev s) = true).
Proof.
  repeat split.
  - intros [] []; cbn; intro H; try reflexivity; discriminate H.
  - intros [] []; cbn; intro H; try reflexivity; discriminate H.
  - destruct t; discriminate.
  - destruct t; reflexivity.
  - destruct s; discriminate.
  - destruct s; reflexivity.
Qed.

(* ================================================================== *)
(** * More on the relay bridge *)

Section BridgeRuns.

Local Open Scope list_scope.

Lemma set_insert_twice c s : set_insert c (set_insert c s) = set_insert c s.
Proof.
  induction s as [|x s IH]; cbn [set_insert].
  - now rewrite N.ltb_irrefl, N.eqb_refl.
  - destruct (N.ltb_spec c x) as [Hlt|Hge]; cbn [set_insert].
    + now rewrite N.ltb_irrefl, N.eqb_refl.
    + destruct (N.eqb_spec c x) as [->|Hne]; cbn [set_insert].
      * now rewrite N.ltb_irrefl, N.eqb_refl.
      * destruct (N.ltb_spec c x) as [Hlt|_]; [lia|].
        destruct (N.eqb_spec c x) as [E|_]; [contradiction|].
        now rewrite IH.
Qed.

Lemma set_insert_keeps c x s : In x s -> In x (set_insert c s).
Proof.
  induction s as [|y s IH]; [intros []|]. intro H. cbn [set_insert].
  destruct (c <? y)%N; [now right|].
  destruct (c =? y)%N; [exact H|].
  destruct H as [->|H]; [now left | right; auto].
Qed.

Lemma set_insert_only c x s : In x (set_insert c s) -> x = c \/ In x s.
Proof.
  induction s as [|y s IH]; cbn [set_insert].
  - intros [->|[]]. now left.
  - destruct (c <? y)%N; [intros [->|H]; [now left | now right]|].
    destruct (c =? y)%N; [now right|].
    intros [->|H]; [right; now left|].
    destruct (IH H) as [->|H']; [now left | right; now right].
Qed.

Lemma set_erase_gone c s : ~ In c (set_erase c s).
Proof.
  unfold set_erase. intro H. apply filter_In in H as [_ H].
  now rewrite N.eqb_refl in H.
Qed.

Lemma set_erase_keeps c x s : x <> c -> In x s -> In x (set_erase c s).
Proof.
  intros Hne H. unfold set_erase. apply filter_In. split; [exact H|].
  apply negb_true_iff, N.eqb_neq, Hne.
Qed.

Lemma set_erase_only c x s : In x (set_erase c s) -> In x s.
Proof. unfold set_erase. intro H. now apply filter_In in H. Qed.

Lemma offered_broadcast_absent text throws c conns :
  ~ In c conns ->
  filter (fun s => (sc_to s =? c)%N)
    (map (fun c' => mk_send c' text (throws c')) conns) = [].
Proof.
  induction conns as [|x conns IH]; [reflexivity|]. intro H.
  cbn [map filter sc_to]. destruct (N.eqb_spec x c) as [->|_].
  - exfalso. apply H. now left.
  - apply IH. intro Hin. apply H. now right.
Qed.

Lemma step_sends_receive r throws b :
  b_sends (step (Receive r throws) b) =
  b_sends b ++
  match frame_of r with
  | Some text => map (fun c => mk_send c text (throws c)) (wsConnections b)
  | None => []
  end.
Proof.
  unfold step, frame_of. destruct (recv r) as [n buffer].
  destruct (0 <? n)%Z.
  - now rewrite broadcast_closed_form.
  - now rewrite List.app_nil_r.
Qed.

Lemma step_cerr_receive r throws b :
  b_cerr (step (Receive r throws) b) =
  b_cerr b ++
  match frame_of r with
  | Some text =>
      flat_map send_failure_lines
        (map (fun c => mk_send c text (throws c)) (wsConnections b))
  | None => []
  end.
Proof.
  unfold step, frame_of. destruct (recv r) as [n buffer].
  destruct (0 <? n)%Z.
  - rewrite broadcast_closed_form. cbn [b_cerr]. f_equal.
    induction (wsConnections b) as [|c conns IH]; [reflexivity|].
    cbn [flat_map map]. rewrite IH. unfold send_failure_lines at 2.
    cbn [sc_thrown]. reflexivity.
  - now rewrite List.app_nil_r.
Qed.

(** A connection outside the set stays outside, and gets nothing, as long as
    it is not opened. *)
Lemma run_without_open c evs : forall b,
  ~ In c (wsConnections b) ->
  Forall (fun ev => ev <> OnOpen c) evs ->
  offered c (run evs b) = offered c b /\ ~ In c (wsConnections (run evs b)).
Proof.
  induction evs as [|ev evs IH]; intros b Hout Hev; [split; [reflexivity|exact Hout]|].
  inversion Hev as [|? ? Hhead Htail]; subst. cbn [run].
  assert (Hstep : offered c (step ev b) = offered c b /\
                  ~ In c (wsConnections (step ev b))).
  { destruct ev as [c'|c' reason|r throws].
    - split; [reflexivity|]. cbn [step wsConnections]. intro H.
      apply set_insert_only in H as [->|H]; [now apply Hhead | contradiction].
    - split; [reflexivity|]. cbn [step wsConnections]. intro H.
      apply set_erase_only in H. contradiction.
    - rewrite step_wsConnections_receive. split; [|exact Hout].
      unfold offered. rewrite step_sends_receive, List.filter_app, List.map_app.
      destruct (frame_of r) as [text|];
        [rewrite offered_broadcast_absent by exact Hout|];
        apply List.app_nil_r. }
  destruct Hstep as [Hoff Hout'].
  destruct (IH (step ev b) Hout' Htail) as [H1 H2].
  split; [now rewrite H1 | exact H2].
Qed.

(** A connection in the set that is neither closed nor failing gets the
    frames in the order received. *)
Lemma run_spared c evs : forall b,
  ascending (wsConnections b) ->
  In c (wsConnections b) ->
  Forall (spares c) evs ->
  inbox c (run evs b) = inbox c b ++ frames evs /\
  In c (wsConnections (run evs b)).
Proof.
  induction evs as [|ev evs IH]; intros b Hasc Hin Hev.
  - cbn. now rewrite List.app_nil_r.
  - inversion Hev as [|? ? Hhead Htail]; subst. cbn [run].
    pose proof (step_ascending ev b Hasc) as Hasc'.
    destruct ev as [c'|c' reason|r throws]; cbn [spares] in Hhead.
    + destruct (IH (step (OnOpen c') b) Hasc') as [H1 H2];
        [cbn [step wsConnections]; now apply set_insert_keeps | exact Htail|].
      split; [exact H1 | exact H2].
    + destruct (IH (step (OnClose c' reason) b) Hasc') as [H1 H2];
        [cbn [step wsConnections]; apply set_erase_keeps; congruence
        | exact Htail|].
      split; [exact H1 | exact H2].
    + destruct (IH (step (Receive r throws) b) Hasc') as [H1 H2];
        [now rewrite step_wsConnections_receive | exact Htail|].
      split; [|exact H2]. rewrite H1. cbn [frames]. unfold inbox.
      rewrite step_sends_receive, inbox_of_app.
      destruct (frame_of r) as [text|].
      * rewrite inbox_broadcast by (apply ascending_NoDup, Hasc).
        destruct (in_dec N.eq_dec c (wsConnections b)); [|contradiction].
        rewrite Hhead, <- List.app_assoc. reflexivity.
      * cbn [inbox_of filter map]. now rewrite List.app_nil_r.
Qed.

Lemma take_length n : forall s, String.length (take n s) <= n.
Proof.
  induction n as [|n IH]; intros [|c s]; cbn [take String.length]; try lia.
  specialize (IH s). lia.
Qed.

Lemma c_str_length s : String.length (c_str s) <= String.length s.
Proof.
  induction s as [|c s IH]; cbn [c_str String.length]; [lia|].
  destruct (Ascii.eqb c ch_nul); cbn [String.length]; lia.
Qed.

Lemma c_str_twice s : c_str (c_str s) = c_str s.
Proof.
  induction s as [|c s IH]; [reflexivity|]. cbn [c_str].
  destruct (Ascii.eqb c ch_nul) eqn:E; [reflexivity|].
  cbn [c_str]. now rewrite E, IH.
Qed.

Lemma frame_of_bounds r text :
  frame_of r = Some text ->
  String.length text <= BUFFER_SIZE - 1 /\ no_nul text.
Proof.
  unfold frame_of, recv. destruct r as [|d]; cbn [fst snd].
  - discriminate.
  - destruct (0 <? _)%Z; [|discriminate]. intros [= <-]. split.
    + etransitivity; [apply c_str_length | apply take_length].
    + apply c_str_twice.
Qed.

Lemma run_sends_invariant (P : send_text_call -> Prop) :
  (forall r text c thrown, frame_of r = Some text ->
                           P (mk_send c text thrown)) ->
  forall evs b, Forall P (b_sends b) -> Forall P (b_sends (run evs b)).
Proof.
  intros HP. induction evs as [|ev evs IH]; intros b Hb; [exact Hb|].
  cbn [run]. apply IH. destruct ev as [c|c reason|r throws]; try exact Hb.
  rewrite step_sends_receive. apply Forall_app. split; [exact Hb|].
  destruct (frame_of r) as [text|] eqn:E; [|constructor].
  apply Forall_forall. intros s Hs. apply in_map_iff in Hs as (c & <- & _).
  now apply (HP r).
Qed.

Lemma run_cerr_invariant evs : forall b,
  b_cerr b = flat_map send_failure_lines (b_sends b) ->
  b_cerr (run evs b) = flat_map send_failure_lines (b_sends (run evs b)).
Proof.
  induction evs as [|ev evs IH]; intros b Hb; [exact Hb|].
  cbn [run]. apply IH. destruct ev as [c|c reason|r throws]; try exact Hb.
  rewrite step_cerr_receive, step_sends_receive, List.flat_map_app, Hb.
  f_equal. now destruct (frame_of r).
Qed.

End BridgeRuns.

(** X16. The connection set of the bridge is a set, at every moment: in
    ascending order and without repetition. Opening a connection puts it in,
    opening it again changes nothing, closing it takes it out. *)
Theorem connection_set_is_a_set :
  forall (evs : list event) (c : N) (reason : string),
    let b := run evs bridge_init in
    ascending (wsConnections b) /\
    NoDup (wsConnections b) /\
    In c (wsConnections (step (OnOpen c) b)) /\
    wsConnections (step (OnOpen c) (step (OnOpen c) b)) =
      wsConnections (step (OnOpen c) b) /\
    ~ In c (wsConnections (step (OnClose c reason) b)).
Proof.
  intros evs c reason b.
  assert (Hasc : ascending (wsConnections b))
    by (apply run_ascending; constructor).
  split; [exact Hasc|]. split; [apply ascending_NoDup, Hasc|].
  split; [apply set_insert_In|]. split; [apply set_insert_twice|].
  apply set_erase_gone.
Qed.

(** X17. A connection that is not in the set gets nothing, and stays out,
    until it is opened: one that was closed is sent nothing more, and one
    that was never opened is never sent anything. *)
Theorem closed_or_unknown_connection_gets_nothing :
  forall (before later : list event) (c : N) (reason : string),
    Forall (fun ev => ev <> OnOpen c) later ->
    let b := run before bridge_init in
    offered c (run later (step (OnClose c reason) b)) = offered c b /\
    ~ In c (wsConnections (run later (step (OnClose c reason) b))) /\
    offered c (run later bridge_init) = [].
Proof.
  intros before later c reason Hlater b.
  destruct (run_without_open c later (step (OnClose c reason) b))
    as [H1 H2]; [apply set_erase_gone | exact Hlater|].
  destruct (run_without_open c later bridge_init) as [H3 _];
    [intros [] | exact Hlater|].
  repeat split; assumption.
Qed.

Lemma closed_or_unknown_connection_gets_nothing_witness :
  let before :=
    [OnOpen 1%N; OnOpen 2%N; Receive (RecvDatagram "first") (fun _ => None)] in
  let later :=
    [Receive (RecvDatagram "second") (fun _ => None); OnOpen 3%N;
     Receive (RecvDatagram "third") (fun _ => None)] in
  let b := run before bridge_init in
  offered 2%N (run later (step (OnClose 2%N "gone") b)) = ["first"%string] /\
  offered 1%N (run later (step (OnClose 2%N "gone") b)) =
    ["first"%string; "second"%string; "third"%string].
Proof.
  intros before later b.
  destruct (closed_or_unknown_connection_gets_nothing before later 2%N "gone")
    as (H & _ & _).
  - repeat constructor; discriminate.
  - split; [|reflexivity].
    transitivity (offered 2%N b); [exact H | reflexivity].
Defined.

(** X18. A subscriber that is in the set and is neither closed nor failing
    gets every relayed text as a frame, once, in the order the datagrams
    were received. *)
Theorem subscriber_gets_frames_in_receive_order :
  forall (before later : list event) (c : N),
    In c (wsConnections (run before bridge_init)) ->
    Forall (spares c) later ->
    inbox c (run later (run before bridge_init)) =
      (inbox c (run before bridge_init) ++ frames later)%list /\
    In c (wsConnections (run later (run before bridge_init))).
Proof.
  intros before later c Hin Hspared.
  apply run_spared; [|exact Hin | exact Hspared].
  apply run_ascending. constructor.
Qed.

Lemma subscriber_gets_frames_in_receive_order_witness :
  let before := [OnOpen 5%N; OnOpen 1%N] in
  let later :=
    [Receive (RecvDatagram "a") (fun _ => None);
     Receive RecvError (fun _ => None);
     OnClose 5%N "gone";
     Receive (RecvDatagram EmptyString) (fun _ => None);
     Receive (RecvDatagram "b")
       (fun c => if (c =? 5)%N then Some "closed" else None);
     OnOpen 7%N;
     Receive (RecvDatagram "c") (fun _ => None)] in
  inbox 1%N (run later (run before bridge_init)) =
    ["a"%string; "b"%string; "c"%string].
Proof.
  intros before later.
  destruct (subscriber_gets_frames_in_receive_order before later 1%N)
    as [H _].
  - cbn. tauto.
  - repeat constructor; cbn; discriminate.
  - etransitivity; [exact H | reflexivity].
Defined.

(** X19. Every text the bridge ever passes to [send_text] is at most
    [BUFFER_SIZE - 1] = 1023 bytes long and holds no zero byte, whatever
    datagrams arrive. *)
Theorem relayed_frames_fit_the_buffer :
  forall evs : list event,
    Forall (fun s => String.length (sc_text s) <= BUFFER_SIZE - 1 /\
                     no_nul (sc_text s))
      (b_sends (run evs bridge_init)).
Proof.
  intro evs. apply run_sends_invariant; [|constructor].
  intros r text c thrown H. cbn [sc_text]. now apply (frame_of_bounds r).
Qed.

(** X20. The lines of the bridge on [std::cerr] are exactly the failed
    [send_text] calls, one line per call, in the order of the calls, each
    with the text of the exception. *)
Theorem send_failures_are_reported_one_by_one :
  forall evs : list event,
    b_cerr (run evs bridge_init) =
    flat_map send_failure_lines (b_sends (run evs bridge_init)).
Proof. intro evs. now apply run_cerr_invariant. Qed.

(* ================================================================== *)
(** * From the logger to the viewer, and the example program *)

Section EndToEnd.

Local Open Scope list_scope.

Lemma printable_not_nul c : printable c = true -> not_nul c = true.
Proof.
  intro H. unfold not_nul. apply negb_true_iff.
  destruct (Ascii.eqb_spec c ch_nul) as [->|_]; [discriminate H | reflexivity].
Qed.

Lemma lib_payload_longer entry message :
  String.length message < String.length (Lib.payload entry message).
Proof.
  unfold Lib.payload. rewrite !length_append. cbn [String.length str1]. lia.
Qed.

Lemma part001_payload_longer entry message :
  String.length message < String.length (Part001.payload entry message).
Proof.
  unfold Part001.payload. rewrite !length_append. cbn [String.length str1].
  pose proof (escape_json_length message). lia.
Qed.

(** What one subscriber of the set is offered when a datagram arrives. *)
Lemma offered_after_datagram evs d throws c :
  d <> EmptyString ->
  In c (wsConnections (run evs bridge_init)) ->
  offered c (step (Receive (RecvDatagram d) throws) (run evs bridge_init)) =
  offered c (run evs bridge_init) ++ [c_str (take (BUFFER_SIZE - 1) d)].
Proof.
  intros Hd Hin. unfold offered.
  rewrite (step_receive_datagram d throws _ Hd). cbn [b_sends].
  rewrite List.filter_app, List.map_app, offered_broadcast
    by apply reachable_NoDup.
  destruct (in_dec N.eq_dec c (wsConnections (run evs bridge_init)));
    [reflexivity | contradiction].
Qed.

Lemma example_line_is_fs_line i env :
  fs_line
    (entry_of_call (i + 1)
       (mk_call env INFO MID (example_message i) 12345 0))
    (example_message i) =
  example_line (i + 1).
Proof. reflexivity. Qed.

Lemma example_loop_file env_at count : forall i lg w p,
  (forall k, env_write_ok (env_at k) = true) ->
  logFilePath lg = Some p ->
  of_is_open (logFileStream lg) = true ->
  of_bad (logFileStream lg) = false ->
  seq_id lg = i ->
  (i + N.of_nat count < uint64_modulus)%N ->
  of_file (logFileStream (fst (example_loop count i env_at (lg, w)))) =
  (of_file (logFileStream lg) ++
   join (map (fun j => example_line (i + 1 + N.of_nat j)) (seq 0 count)))%string.
Proof.
  induction count as [|count IH]; intros i lg w p Hok Hp Hopen Hgood Hseq Hb.
  - cbn. now rewrite append_empty_r.
  - cbn [example_loop].
    change (Lib.log (env_at i) INFO MID (example_message i) 12345 0 (lg, w))
      with (do_call Lib.payload
              (mk_call (env_at i) INFO MID (example_message i) 12345 0)
              (lg, w)).
    rewrite do_call_closed_form. cbv zeta.
    rewrite Hp, Hopen, Hseq. cbn [andb c_env c_message].
    unfold stream_insert. rewrite Hgood, Hok, Hopen.
    assert (Hincr : incr64 i = (i + 1)%N)
      by (unfold incr64; apply N.mod_small; lia).
    rewrite Hincr, example_line_is_fs_line.
    rewrite (IH (i + 1)%N _ _ p); try reflexivity; try exact Hok; [|lia].
    cbn [logFileStream of_file seq map join]. rewrite append_assoc_r.
    f_equal. f_equal.
    + now rewrite N.add_0_r.
    + rewrite <- List.seq_shift, List.map_map. f_equal.
      apply List.map_ext. intro j. f_equal. lia.
Qed.

End EndToEnd.

(** X21. From [log] to the viewer, in the revision with [escape_json]: when
    the message has no control character outside the five with a case and
    the payload fits the buffer of the bridge, the bytes [log] hands to
    [sendto], once they arrive as a datagram, reach every subscriber of the
    set whose [send_text] returns as its next frame, unchanged, and decode to
    the type, severity, timestamp, identifiers, sequence number and message
    of the call. *)
Theorem logged_entry_reaches_the_viewer :
  forall (env : call_env) (type : type_t) (sev : severity_t)
         (message : string) (au pu : N) (lg : Logger) (w : World)
         (u : string) (evs : list event) (throws : N -> option string)
         (c : N),
    let entry :=
      mk_entry type sev (env_now env) au (incr64 (seq_id lg)) pu 0
        (N.of_nat (String.length message)) in
    let payload := Part001.payload entry message in
    let b := run evs bridge_init in
    udsPath lg = Some u ->
    all_chars escapable message = true ->
    String.length payload <= BUFFER_SIZE - 1 ->
    In c (wsConnections b) ->
    throws c = None ->
    w_sendto (snd (Part001.log env type sev message au pu (lg, w))) =
      (w_sendto w ++ [mk_sendto payload (sendto (udsSock lg) env)])%list /\
    inbox c (step (Receive (RecvDatagram payload) throws) b) =
      (inbox c b ++ [payload])%list /\
    decode_entry payload =
      Some (mk_wire (env_now env) type sev au (incr64 (seq_id lg)) pu message).
Proof.
  intros env type sev message au pu lg w u evs throws c entry payload b
    Hu Hm Hfit Hin Hok.
  split; [|split].
  - change (Part001.log env type sev message au pu (lg, w))
      with (do_call Part001.payload (mk_call env type sev message au pu)
              (lg, w)).
    rewrite do_call_closed_form. cbv zeta. cbn [snd w_sendto]. now rewrite Hu.
  - assert (Hd : payload <> EmptyString) by (subst payload; discriminate).
    unfold inbox. rewrite (step_receive_datagram payload throws b Hd).
    cbn [b_sends]. rewrite (take_all _ _ Hfit).
    rewrite not_nul_c_str.
    + rewrite inbox_of_app, inbox_broadcast by apply reachable_NoDup.
      destruct (in_dec N.eq_dec c (wsConnections b)); [|contradiction].
      now rewrite Hok.
    + apply part001_payload_chars; [exact printable_not_nul|].
      apply escape_json_keeps_not_nul, escapable_not_nul, Hm.
  - subst payload. now rewrite part001_payload_reads_back.
Qed.

Lemma logged_entry_reaches_the_viewer_witness :
  let message := "say " ++ quoted "hi" ++ str1 ch_nl in
  let fresh :=
    Logger_new (Some "/tmp/a.0") (Some "/tmp/b.0") both_sinks_env
      empty_world in
  let b := run [OnOpen 4%N] bridge_init in
  exists payload,
    map st_payload
      (w_sendto
         (snd (Part001.log (quiet_env 77) WARNING LOW message 12345 7
                 fresh))) = [payload] /\
    inbox 4%N (step (Receive (RecvDatagram payload) (fun _ => None)) b) =
      [payload] /\
    decode_entry payload = Some (mk_wire 77 WARNING LOW 12345 1 7 message).
Proof.
  intros message fresh b.
  destruct (logged_entry_reaches_the_viewer (quiet_env 77) WARNING LOW
              message 12345 7 (fst fresh) (snd fresh) "/tmp/b.0"
              [OnOpen 4%N] (fun _ => None) 4%N)
    as (Hsend & Hinbox & Hdecode).
  - reflexivity.
  - reflexivity.
  - vm_compute. repeat constructor.
  - cbn. tauto.
  - reflexivity.
  - eexists. split; [|split].
    + change fresh with (fst fresh, snd fresh). rewrite Hsend. reflexivity.
    + exact Hinbox.
    + exact Hdecode.
Defined.

(** X22. A message of [BUFFER_SIZE - 1] = 1023 bytes or more never reaches a
    subscriber whole, in either revision: the payload is longer than the
    bytes the bridge reads, so the text passed to [send_text] is shorter
    than the payload that was sent. *)
Theorem long_message_is_cut_by_the_bridge :
  forall (entry : log_entry_t) (message : string) (evs : list event)
         (throws : N -> option string) (c : N),
    BUFFER_SIZE - 1 <= String.length message ->
    In c (wsConnections (run evs bridge_init)) ->
    forall payload,
      payload = Lib.payload entry message \/
      payload = Part001.payload entry message ->
      exists text,
        offered c (step (Receive (RecvDatagram payload) throws)
                     (run evs bridge_init)) =
          (offered c (run evs bridge_init) ++ [text])%list /\
        String.length text < String.length payload /\
        text <> payload.
Proof.
  intros entry message evs throws c Hlong Hin payload Hpayload.
  assert (Hlen : BUFFER_SIZE - 1 < String.length payload).
  { destruct Hpayload as [-> | ->];
      [pose proof (lib_payload_longer entry message)
      |pose proof (part001_payload_longer entry message)]; lia. }
  assert (Hd : payload <> EmptyString)
    by (intros ->; cbn in Hlen; lia).
  exists (c_str (take (BUFFER_SIZE - 1) payload)).
  assert (Hshort : String.length (c_str (take (BUFFER_SIZE - 1) payload))
                   < String.length payload).
  { pose proof (c_str_length (take (BUFFER_SIZE - 1) payload)).
    pose proof (take_length (BUFFER_SIZE - 1) payload). lia. }
  split; [now apply offered_after_datagram|]. split; [exact Hshort|].
  intro E. rewrite E in Hshort. lia.
Qed.

Lemma long_message_is_cut_by_the_bridge_witness :
  let message := string_of_list_ascii (repeat "a"%char 1023) in
  let payload := Lib.payload (mk_entry INFO MID 77 12345 1 0 0 1023) message in
  exists text,
    offered 4%N (step (Receive (RecvDatagram payload) (fun _ => None))
                   (run [OnOpen 4%N] bridge_init)) = [text] /\
    String.length text < String.length payload /\
    text <> payload.
Proof.
  intros message payload.
  apply (long_message_is_cut_by_the_bridge
           (mk_entry INFO MID 77 12345 1 0 0 1023) message [OnOpen 4%N]
           (fun _ => None) 4%N).
  - vm_compute. repeat constructor.
  - cbn. tauto.
  - left. reflexivity.
Defined.

(** X23. The example program: when the file opens and every write is
    accepted, the loop of [count] calls leaves [count] more lines in the
    file, the k-th with [Seq: k] and the message
    [Test log message number k]; [main], whose bound is 10, leaves the
    lines 1 to 10. *)
Theorem example_program_numbers_its_lines :
  forall (count : nat) (cenv : ctor_env) (env_at : N -> call_env),
    open_ok cenv = true ->
    (forall k, env_write_ok (env_at k) = true) ->
    (N.of_nat count < 2 ^ 31)%N ->
    of_file
      (logFileStream
         (fst (example_loop count 0 env_at
                 (Logger_new (Some "/tmp/a.0") (Some "/tmp/b.0") cenv
                    empty_world)))) =
      existing cenv ++ join (map example_line (map N.of_nat (seq 1 count))) /\
    (count = 10 ->
     of_file (logFileStream (fst (example_main cenv env_at))) =
       existing cenv ++ join (map example_line [1; 2; 3; 4; 5; 6; 7; 8; 9; 10]%N)).
Proof.
  intros count cenv env_at Hopen Hok Hbound.
  assert (H : of_file
                (logFileStream
                   (fst (example_loop count 0 env_at
                           (Logger_new (Some "/tmp/a.0") (Some "/tmp/b.0") cenv
                              empty_world)))) =
              existing cenv
              ++ join (map example_line (map N.of_nat (seq 1 count)))).
  { unfold Logger_new. rewrite Hopen.
    assert (Hb64 : (0 + N.of_nat count < uint64_modulus)%N).
    { change uint64_modulus with (2 ^ 64)%N.
      assert ((2 ^ 31 < 2 ^ 64)%N) by reflexivity. lia. }
    destruct (socket_ret cenv <? 0)%Z;
      rewrite (example_loop_file env_at count 0%N _ _ "/tmp/a.0");
      try reflexivity; try assumption;
      cbn [logFileStream of_file]; f_equal; f_equal;
      rewrite <- List.seq_shift, !List.map_map;
      apply List.map_ext; intro j; f_equal; lia. }
  split; [exact H|]. intros ->. exact H.
Qed.

Lemma example_program_numbers_its_lines_witness :
  of_file
    (logFileStream
       (fst (example_loop 2 0 (fun k => quiet_env (100 + k))
               (Logger_new (Some "/tmp/a.0") (Some "/tmp/b.0") both_sinks_env
                  empty_world)))) =
  "[INFO], {MID}, Activity: 12345 Seq: 1 Parent: 0 -- Test log message number 1"
  ++ str1 ch_nl ++
  "[INFO], {MID}, Activity: 12345 Seq: 2 Parent: 0 -- Test log message number 2"
  ++ str1 ch_nl.
Proof.
  destruct (example_program_numbers_its_lines 2 both_sinks_env
              (fun k => quiet_env (100 + k))) as [H _].
  - reflexivity.
  - reflexivity.
  - reflexivity.
  - rewrite H. reflexivity.
Defined.

Section SinkOrder.

Local Open Scope list_scope.

Lemma file_lines_by_entry cs : forall counter,
  file_lines counter cs =
  join (map (fun ec => fs_line (fst ec) (c_message (snd ec)))
          (combine (entries_from counter cs) cs)).
Proof.
  induction cs as [|c cs IH]; intro counter; [reflexivity|].
  cbn [file_lines entries_from combine map join fst snd]. now rewrite IH.
Qed.

Lemma sendto_calls_by_entry payload_of sock cs : forall counter,
  map st_payload (sendto_calls_from payload_of sock counter cs) =
  map (fun ec => payload_of (fst ec) (c_message (snd ec)))
    (combine (entries_from counter cs) cs).
Proof.
  induction cs as [|c cs IH]; intro counter; [reflexivity|].
  cbn [sendto_calls_from entries_from combine map st_payload fst snd].
  now rewrite IH.
Qed.

End SinkOrder.

(** X25. File order is publish order is counter order: on a logger with both
    sinks working, the k-th line appended to the file and the k-th datagram
    handed to [sendto] are formatted from the same entry, the k-th of the
    run, and from the message of the k-th call. *)
Theorem file_and_datagrams_follow_the_same_entries :
  forall (payload_of : log_entry_t -> string -> string)
         (cs : list call) (lg : Logger) (w : World) (p u : string),
    logFilePath lg = Some p ->
    udsPath lg = Some u ->
    of_is_open (logFileStream lg) = true ->
    of_bad (logFileStream lg) = false ->
    Forall (fun c => env_write_ok (c_env c) = true) cs ->
    let after := run_calls payload_of cs (lg, w) in
    let pairs := combine (entries_from (seq_id lg) cs) cs in
    w_entries (snd after) =
      (w_entries w ++ entries_from (seq_id lg) cs)%list /\
    of_file (logFileStream (fst after)) =
      of_file (logFileStream lg)
      ++ join (map (fun ec => fs_line (fst ec) (c_message (snd ec))) pairs) /\
    map st_payload (w_sendto (snd after)) =
      (map st_payload (w_sendto w)
       ++ map (fun ec => payload_of (fst ec) (c_message (snd ec))) pairs)%list.
Proof.
  intros payload_of cs lg w p u Hp Hu Hopen Hgood Hok after pairs.
  subst after pairs. split; [apply run_calls_entries|]. split.
  - rewrite (run_calls_file payload_of cs lg w p Hp Hopen Hgood).
    now rewrite (written_calls_all cs Hok), file_lines_by_entry.
  - rewrite run_calls_sendto, Hu, List.map_app.
    now rewrite sendto_calls_by_entry.
Qed.

Lemma file_and_datagrams_follow_the_same_entries_witness :
  let cs :=
    [mk_call (quiet_env 5) INFO MID "a" 1 0;
     mk_call (mk_env 6 true (-1) "refused") ERROR HIGH "b" 2 1] in
  let fresh :=
    Logger_new (Some "/tmp/a.0") (Some "/tmp/b.0") both_sinks_env
      empty_world in
  let after := run_calls Lib.payload cs fresh in
  map e_seq_id (w_entries (snd after)) = [1; 2]%N /\
  of_file (logFileStream (fst after)) =
    "[INFO], {MID}, Activity: 1 Seq: 1 Parent: 0 -- a" ++ str1 ch_nl ++
    "[ERROR], {HIGH}, Activity: 2 Seq: 2 Parent: 1 -- b" ++ str1 ch_nl /\
  List.length (w_sendto (snd after)) = 2.
Proof.
  intros cs fresh after.
  destruct (file_and_datagrams_follow_the_same_entries Lib.payload cs
              (fst fresh) (snd fresh) "/tmp/a.0" "/tmp/b.0")
    as (He & Hf & Hs).
  - reflexivity.
  - reflexivity.
  - reflexivity.
  - reflexivity.
  - repeat constructor.
  - change (run_calls Lib.payload cs (fst fresh, snd fresh)) with after
      in He, Hf, Hs.
    rewrite He, Hf. split; [reflexivity|]. split; [reflexivity|].
    rewrite <- (List.length_map st_payload), Hs. reflexivity.
Defined.

(* ================================================================== *)
(** * The call that may not come back, forged members, the two revisions *)

Section Outcomes.

Local Open Scope list_scope.


Lemma run_calls_but_sendto p1 p2 cs1 cs2 :
  Forall2 same_call_but_sendto cs1 cs2 ->
  forall lg w1 w2,
    w_entries w1 = w_entries w2 ->
    fst (run_calls p1 cs1 (lg, w1)) = fst (run_calls p2 cs2 (lg, w2)) /\
    w_entries (snd (run_calls p1 cs1 (lg, w1))) =
    w_entries (snd (run_calls p2 cs2 (lg, w2))).
Proof.
  induction 1 as [|c1 c2 cs1 cs2 Hc _ IH]; intros lg w1 w2 He;
    [split; [reflexivity | exact He]|].
  cbn [run_calls]. rewrite !do_call_closed_form. cbv zeta.
  destruct Hc as (Ht & Hs & Hm & Ha & Hp & Hn & Hw).
  assert (Hentry : entry_of_call (incr64 (seq_id lg)) c1 =
                   entry_of_call (incr64 (seq_id lg)) c2)
    by (unfold entry_of_call; now rewrite Ht, Hs, Hm, Ha, Hp, Hn).
  rewrite Hentry, Hm, Hw. apply IH. cbn [w_entries]. now rewrite He.
Qed.

End Outcomes.




(** X13. In [src/lib/logger.cpp] a message can forge the payload: a message
    that closes its string and opens a second [message] member gives a
    well-formed object of eight members, the six others intact, with two
    members named [message]. A reader that keeps the last of them, as
    [JSON.parse] in the page script does, shows only the part after the
    forged key; one that keeps the first shows only the part before the
    double quote; neither shows the message that was logged. *)
Theorem lib_payload_can_be_forged :
  forall (entry : log_entry_t) (shown hidden : string),
    all_chars plain shown = true ->
    all_chars plain hidden = true ->
    let message :=
      shown ++ str1 ch_quote ++ "," ++ key "message" ++ str1 ch_quote
      ++ hidden in
    let ms :=
      [("timestamp", JNum (e_timestamp entry));
       ("type", JStr (to_string_type (e_type entry)));
       ("severity", JStr (to_string_sev (e_sev entry)));
       ("activity_uuid", JNum (e_activity_uuid entry));
       ("seq_id", JNum (e_seq_id entry));
       ("parent_uuid", JNum (e_parent_uuid entry));
       ("message", JStr shown);
       ("message", JStr hidden)] in
    json_object (Lib.payload entry message) = Some ms /\
    member_last "message" ms = Some (JStr hidden) /\
    member "message" ms = Some (JStr shown) /\
    hidden <> message /\ shown <> message.
Proof.
  intros entry shown hidden Hshown Hhidden message ms. subst message ms.
  split; [now apply lib_payload_forged_members|].
  split; [reflexivity|]. split; [reflexivity|]. split.
  - intro H. apply (f_equal String.length) in H.
    rewrite !length_append in H. cbn [str1 String.length] in H. lia.
  - intro H. apply (f_equal String.length) in H.
    rewrite !length_append in H. cbn [str1 String.length] in H. lia.
Qed.

Lemma lib_payload_can_be_forged_witness :
  let entry := mk_entry ERROR HIGH 77 12345 1 0 0 32 in
  let message :=
    "disk full" ++ str1 ch_quote ++ "," ++ key "message" ++ str1 ch_quote
    ++ "all is well" in
  exists ms,
    json_object (Lib.payload entry message) = Some ms /\
    member_last "message" ms = Some (JStr "all is well") /\
    member "message" ms = Some (JStr "disk full") /\
    member_last "seq_id" ms = Some (JNum 1).
Proof.
  intros entry message.
  destruct (lib_payload_can_be_forged entry "disk full" "all is well")
    as (Hobj & Hlast & Hfirst & _); [reflexivity | reflexivity |].
  eexists. split; [exact Hobj|]. split; [exact Hlast|].
  split; [exact Hfirst | reflexivity].
Defined.

(** X24. The two revisions of [logger.cpp] drive the same file sink and the
    same sequencer: for every run of the same calls from the same logger,
    whatever [sendto] answers to either, they leave the same file and stream
    state, the same counter and configuration and the same entries. *)
Theorem revisions_share_file_and_sequencer :
  forall (cs1 cs2 : list call) (lg : Logger) (w : World),
    Forall2 same_call_but_sendto cs1 cs2 ->
    fst (run_calls Lib.payload cs1 (lg, w)) =
      fst (run_calls Part001.payload cs2 (lg, w)) /\
    w_entries (snd (run_calls Lib.payload cs1 (lg, w))) =
      w_entries (snd (run_calls Part001.payload cs2 (lg, w))).
Proof.
  intros cs1 cs2 lg w H. now apply run_calls_but_sendto.
Qed.

Lemma revisions_share_file_and_sequencer_witness :
  let fresh :=
    Logger_new (Some "/tmp/a.0") (Some "/tmp/b.0") both_sinks_env
      empty_world in
  let lib :=
    run_calls Lib.payload
      [mk_call (mk_env 5 true 142 EmptyString) INFO MID scenario_message
         12345 0;
       mk_call (mk_env 6 false (-1) "ENOBUFS") ERROR HIGH "b" 2 1] fresh in
  let rev :=
    run_calls Part001.payload
      [mk_call (mk_env 5 true 146 EmptyString) INFO MID scenario_message
         12345 0;
       mk_call (mk_env 6 false 90 EmptyString) ERROR HIGH "b" 2 1] fresh in
  fst lib = fst rev /\ w_entries (snd lib) = w_entries (snd rev).
Proof.
  intros fresh lib rev.
  apply (revisions_share_file_and_sequencer
           [mk_call (mk_env 5 true 142 EmptyString) INFO MID scenario_message
              12345 0;
            mk_call (mk_env 6 false (-1) "ENOBUFS") ERROR HIGH "b" 2 1]
           [mk_call (mk_env 5 true 146 EmptyString) INFO MID scenario_message
              12345 0;
            mk_call (mk_env 6 false 90 EmptyString) ERROR HIGH "b" 2 1]
           (fst fresh) (snd fresh)).
  repeat constructor.
Defined.
